(** * Standalone-routes migration: lazy loading of standalone components

    A shallow embedding of
      packages/core/schematics/ng-generate/standalone-routes/to-standalone.ts
      packages/core/schematics/ng-generate/standalone-routes/util.ts
    together with the properties the specification states about them.

    The TypeScript compiler API the migration is written against (syntax
    nodes, [ts.isXxx] guards, [forEachChild], the type checker) is modelled
    by the definitions of the modules [Ts] and [Checker]; the migration
    itself is in [Locator], [Rewriter] and [Orchestrator], one definition per
    source function. *)

From stdpp Require Import base option list strings gmap sorting.
From Stdlib Require Import ZArith Lia.
From stdpp Require Import pretty.

Set Warnings "-register-all".

Local Open Scope string_scope.
Local Open Scope Z_scope.
Local Open Scope list_scope.

(** ** Results of code that can throw *)

Inductive Error : Type :=
| TypeError          (* a JavaScript [TypeError]: a property of [undefined] was read *)
| ConflictingEdits.  (* the change tracker rejected overlapping edits *)

Inductive Result (A : Type) : Type :=
| Ok (a : A)
| Throw (e : Error).
Arguments Ok {A} a.
Arguments Throw {A} e.

#[global] Instance Result_ret : MRet Result := fun _ a => Ok a.
#[global] Instance Result_bind : MBind Result := fun _ _ f m =>
  match m with
  | Ok a => f a
  | Throw e => Throw e
  end.

(** [for (const x of xs) acc = f(acc, x)] where the body can throw. *)
Fixpoint forOf {A S : Type} (f : S -> A -> Result S) (xs : list A) (s : S) : Result S :=
  match xs with
  | [] => Ok s
  | x :: rest => s' ← f s x; forOf f rest s'
  end.

(** ** Syntax trees of the TypeScript compiler API *)
Module Ts.

(** Text span of a node: what [getStart()] and [getWidth()] return.
    Nodes made by [ts.factory] have no position in any file. *)
Record Loc : Type := mkLoc { locStart : Z; locWidth : Z }.

Definition synthesized : Loc := mkLoc (-1) 0.

(** One constructor per [SyntaxKind] the migration inspects or creates.
    Those it inspects carry the fields it reads and their children; import
    and class declarations keep all their children (decorators and other
    modifiers, clauses, members) in one list, in [forEachChild] order.
    [ArrowFunction] and [ParameterDeclaration] are the nodes the migration
    creates, with the fields it sets. Every other node is an [OtherNode],
    which keeps its children in [forEachChild] order and, for declarations
    that have one (methods, accessors, shorthand properties, ...), its
    [name]. Child positions are untyped, as they are at run time. *)
Inductive Node : Type :=
| Identifier (l : Loc) (text : string)
| StringLiteral (l : Loc) (text : string)
| PropertyAccessExpression (l : Loc) (expression : Node) (name : Node)
| CallExpression (l : Loc) (expression : Node) (typeArguments arguments : list Node)
| ArrayLiteralExpression (l : Loc) (elements : list Node)
| ObjectLiteralExpression (l : Loc) (properties : list Node)
| PropertyAssignment (l : Loc) (name : Node) (initializer : Node)
| ArrowFunction (l : Loc) (parameters : list Node) (body : Node)
| ParameterDeclaration (l : Loc) (name : Node)
| ImportDeclaration (l : Loc) (children : list Node)
| ClassDeclaration (l : Loc) (name : option Node) (children : list Node)
| OtherNode (kind : string) (l : Loc) (name : option Node) (children : list Node).

Record SourceFile : Type := mkSourceFile {
  fileName : string;
  statements : list Node
}.

Definition loc (n : Node) : Loc :=
  match n with
  | Identifier l _ | StringLiteral l _ | PropertyAccessExpression l _ _
  | CallExpression l _ _ _ | ArrayLiteralExpression l _
  | ObjectLiteralExpression l _ | PropertyAssignment l _ _
  | ArrowFunction l _ _ | ParameterDeclaration l _
  | ImportDeclaration l _ | ClassDeclaration l _ _ | OtherNode _ l _ _ => l
  end.

Definition getStart (n : Node) : Z := locStart (loc n).
Definition getWidth (n : Node) : Z := locWidth (loc n).

(** The [ts.isXxx] guards compare [node.kind]. *)
Definition isIdentifier (n : Node) : bool :=
  match n with Identifier _ _ => true | _ => false end.
Definition isPropertyAccessExpression (n : Node) : bool :=
  match n with PropertyAccessExpression _ _ _ => true | _ => false end.
Definition isCallExpression (n : Node) : bool :=
  match n with CallExpression _ _ _ _ => true | _ => false end.
Definition isArrayLiteralExpression (n : Node) : bool :=
  match n with ArrayLiteralExpression _ _ => true | _ => false end.
Definition isObjectLiteralExpression (n : Node) : bool :=
  match n with ObjectLiteralExpression _ _ => true | _ => false end.
Definition isImportDeclaration (n : Node) : bool :=
  match n with ImportDeclaration _ _ => true | _ => false end.
Definition isClassDeclaration (n : Node) : bool :=
  match n with ClassDeclaration _ _ _ => true | _ => false end.

(** Property reads; [None] is JavaScript's [undefined]. *)
Definition name (n : Node) : option Node :=
  match n with
  | PropertyAccessExpression _ _ nm | PropertyAssignment _ nm _
  | ParameterDeclaration _ nm => Some nm
  | ClassDeclaration _ nm _ | OtherNode _ _ nm _ => nm
  | _ => None
  end.

Definition text (n : Node) : option string :=
  match n with
  | Identifier _ t | StringLiteral _ t => Some t
  | _ => None
  end.

Definition arguments (n : Node) : list Node :=
  match n with CallExpression _ _ _ args => args | _ => [] end.

Definition initializer (n : Node) : option Node :=
  match n with PropertyAssignment _ _ i => Some i | _ => None end.

(** [x.text === s] *)
Definition textIs (n : Node) (s : string) : bool :=
  match text n with
  | Some t => String.eqb t s
  | None => false
  end.

(** The children [node.forEachChild] visits, in its order. *)
Definition children (n : Node) : list Node :=
  match n with
  | Identifier _ _ | StringLiteral _ _ => []
  | PropertyAccessExpression _ e nm => [e; nm]
  | CallExpression _ e targs args => e :: targs ++ args
  | ArrayLiteralExpression _ es => es
  | ObjectLiteralExpression _ ps => ps
  | PropertyAssignment _ nm i => [nm; i]
  | ArrowFunction _ ps b => ps ++ [b]
  | ParameterDeclaration _ nm => [nm]
  | ImportDeclaration _ cs | ClassDeclaration _ _ cs => cs
  | OtherNode _ _ _ cs => cs
  end.

(** [Within root n]: [n] is [root] or one of its descendants. *)
Inductive Within (root : Node) : Node -> Prop :=
| Within_self : Within root root
| Within_child parent n :
    Within root parent -> n ∈ children parent -> Within root n.

Definition InSourceFile (sf : SourceFile) (n : Node) : Prop :=
  ∃ stmt, stmt ∈ statements sf ∧ Within stmt n.

End Ts.
Export Ts.

(** ** The type checker and the template type checker *)
Module Checker.

(** [ts.Symbol]: [declarations] is optional. *)
Record Symbol : Type := mkSymbol {
  symbolName : string;
  declarations : option (list Node)
}.

(** [ts.Type], of which only [getSymbol()] is used. *)
Record Type_ : Type := mkType { getSymbol : option Symbol }.

Record TypeChecker : Type := mkTypeChecker {
  getSymbolAtLocation : Node -> option Symbol;
  getTypeAtLocation : Node -> Type_
}.

Record DirectiveMeta : Type := mkDirectiveMeta { isStandalone : bool }.

(** [getDirectiveMetadata] is declared on class declarations. *)
Record TemplateTypeChecker : Type := mkTemplateTypeChecker {
  getDirectiveMetadata : Node -> option DirectiveMeta
}.

(** [templateTypeChecker.getDirectiveMetadata(node)] as the migration calls
    it, with the result of a resolution that may have failed: the method
    starts by testing the kind of the node it is given, and throws when the
    node is [null]. *)
Definition directiveMetadata (templateTypeChecker : TemplateTypeChecker)
    (node : option Node) : Result (option DirectiveMeta) :=
  match node with
  | Some declaration => Ok (getDirectiveMetadata templateTypeChecker declaration)
  | None => Throw TypeError
  end.

End Checker.
Export Checker.

(** ** Route-array locator: [findRoutesArrayToMigrate] *)
Module Locator.
Section Walk.
Variable typeChecker : TypeChecker.

(** [moduleSymbol && moduleSymbol.name === s] *)
Definition symbolNamed (moduleSymbol : option Symbol) (s : string) : bool :=
  match moduleSymbol with
  | Some sym => String.eqb (symbolName sym) s
  | None => false
  end.

(** In the source the three conjuncts are followed by [|| ... === 'forChild']
    without parentheses, so the disjunction is applied to the conjunction as
    a whole. *)
Definition isRouterModuleCallExpression (node : Node) : bool :=
  match node with
  | CallExpression _ (PropertyAccessExpression _ expression name) _ _ =>
      let moduleSymbol := getSymbolAtLocation typeChecker expression in
      (symbolNamed moduleSymbol "RouterModule" && textIs name "forRoot")
      || textIs name "forChild"
  | _ => false
  end.

Definition isRouterCallExpression (node : Node) : bool :=
  match node with
  | CallExpression _ (PropertyAccessExpression _ expression name) _ _ =>
      let moduleSymbol := getSymbolAtLocation typeChecker expression in
      symbolNamed moduleSymbol "Router" && textIs name "resetConfig"
  | _ => false
  end.

Definition isRouterProviderCallExpression (node : Node) : bool :=
  match node with
  | CallExpression _ (Identifier l t) _ _ =>
      let moduleSymbol := getSymbolAtLocation typeChecker (Identifier l t) in
      symbolNamed moduleSymbol "provideRouter"
  | _ => false
  end.

(** A call the locator takes for a route registration. *)
Definition isRouteRegistration (node : Node) : bool :=
  isRouterModuleCallExpression node
  || isRouterProviderCallExpression node
  || isRouterCallExpression node.

(** What [walk] does at [node] itself, before it descends:
    [routesArrays.push(arg)] under the two guards. [node.arguments[0]] is
    [undefined] for a call without arguments, and
    [ts.isArrayLiteralExpression] reads the [kind] of what it is given. *)
Definition visit (node : Node) (routesArrays : list Node) : Result (list Node) :=
  if isCallExpression node then
    if isRouteRegistration node then
      match arguments node !! 0%nat with
      | Some arg =>
          if isArrayLiteralExpression arg
          then Ok (routesArrays ++ [arg])
          else Ok routesArrays
      | None => Throw TypeError
      end
    else Ok routesArrays
  else Ok routesArrays.

(** [function walk(node) { ...; node.forEachChild(walk); }]. [walk] returns
    nothing, so [forEachChild] never stops early. *)
Fixpoint walk (node : Node) (routesArrays : list Node) {struct node} : Result (list Node) :=
  let each := fix each (cs : list Node) (acc : list Node) {struct cs} : Result (list Node) :=
    match cs with
    | [] => Ok acc
    | c :: rest => acc' ← walk c acc; each rest acc'
    end in
  acc ← visit node routesArrays;
  match node with
  | Identifier _ _ | StringLiteral _ _ => Ok acc
  | PropertyAccessExpression _ e nm => acc1 ← walk e acc; walk nm acc1
  | CallExpression _ e targs args =>
      acc1 ← walk e acc; acc2 ← each targs acc1; each args acc2
  | ArrayLiteralExpression _ es => each es acc
  | ObjectLiteralExpression _ ps => each ps acc
  | PropertyAssignment _ nm i => acc1 ← walk nm acc; walk i acc1
  | ArrowFunction _ ps b => acc1 ← each ps acc; walk b acc1
  | ParameterDeclaration _ nm => walk nm acc
  | ImportDeclaration _ cs | ClassDeclaration _ _ cs | OtherNode _ _ _ cs => each cs acc
  end.

(** [forEachChild(walk)] over a list of children. *)
Definition forEachChild (cs : list Node) (routesArrays : list Node) : Result (list Node) :=
  forOf (fun acc c => walk c acc) cs routesArrays.

Definition findRoutesArrayToMigrate (sourceFile : SourceFile) : Result (list Node) :=
  forEachChild (statements sourceFile) [].

End Walk.

(** [arr] is the first argument of a call expression at or below [root]. *)
Definition FirstArgumentWithin (root arr : Node) : Prop :=
  ∃ call, Within root call ∧ isCallExpression call = true
          ∧ arguments call !! 0%nat = Some arr.

(** [arr] is the first argument of a call expression of the file. *)
Definition FirstArgumentIn (sourceFile : SourceFile) (arr : Node) : Prop :=
  ∃ call, InSourceFile sourceFile call ∧ isCallExpression call = true
          ∧ arguments call !! 0%nat = Some arr.
End Locator.

(** ** util.ts *)
Module Util.
Section Resolve.
Variable typeChecker : TypeChecker.

(** [getTypeAtLocation(reference).getSymbol()?.declarations?.find(ts.isClassDeclaration) || null] *)
Definition findClassDeclaration (reference : Node) : option Node :=
  match getSymbol (getTypeAtLocation typeChecker reference) with
  | None => None
  | Some sym =>
      match declarations sym with
      | None => None
      | Some decls => List.find isClassDeclaration decls
      end
  end.

(** [prop.name && ts.isIdentifier(prop.name) && prop.name.text === name] *)
Definition isPropertyNamed (name : string) (prop : Node) : bool :=
  match Ts.name prop with
  | Some nm => isIdentifier nm && textIs nm name
  | None => false
  end.

End Resolve.

(** [literal.properties.find(...)]: the result is the property itself, an
    element of [properties]. Only an object literal expression has
    [properties]. *)
Definition findLiteralProperty (literal : Node) (name : string) : Result (option Node) :=
  match literal with
  | ObjectLiteralExpression _ properties => Ok (List.find (isPropertyNamed name) properties)
  | _ => Throw TypeError
  end.

End Util.
Export Util.

(** ** Change tracker *)
Module Tracker.

(** Modelled from the spec: the edits a [ChangeTracker]
    (utils/change_tracker.ts, not among the sources at hand) accumulates, as
    the data model gives them: Replace, Remove and Insert, each anchored to a
    byte range of one file (named by its [fileName]). *)
Inductive Edit : Type :=
| Replace (file : string) (start len : Z) (newText : string)
| Remove (file : string) (start len : Z)
| Insert (file : string) (pos : Z) (newText : string).

(** An edit record as handed to the caller, which reads [change.start],
    [change.removeLength] (when not null) and [change.text]. *)
Record PendingChange : Type := mkChange {
  start : Z;
  removeLength : option Z;
  text : string
}.

(** Modelled from the spec: the file an edit is anchored to. *)
Definition fileOf (e : Edit) : string :=
  match e with
  | Replace f _ _ _ | Remove f _ _ | Insert f _ _ => f
  end.

(** Modelled from the spec: the record of an edit; a removal has the empty
    text, an insertion no [removeLength]. *)
Definition toChange (e : Edit) : PendingChange :=
  match e with
  | Replace _ s len txt => mkChange s (Some len) txt
  | Remove _ s len => mkChange s (Some len) ""
  | Insert _ p txt => mkChange p None txt
  end.

(** Modelled from the spec: the byte range of a change is
    [[start, changeEnd)]; an insertion has length zero. *)
Definition changeEnd (c : PendingChange) : Z :=
  start c + default 0 (removeLength c).

(** Modelled from the spec: two changes are for the same exact range. *)
Definition sameRange (a b : PendingChange) : bool :=
  bool_decide (start a = start b ∧ removeLength a = removeLength b).

(** Modelled from the spec: two ranges collide when each starts before the
    other ends; an insertion at the boundary of another edit collides with
    nothing. *)
Definition overlaps (a b : PendingChange) : bool :=
  (start a <? changeEnd b) && (start b <? changeEnd a).

(** The change removes the byte at [offset]. *)
Definition covers (c : PendingChange) (offset : Z) : Prop :=
  start c ≤ offset < changeEnd c.

(** Ascending start offsets. *)
Definition startsBefore (a b : PendingChange) : Prop := start a ≤ start b.

Section Scheduling.
Variable getSourceFile : Node -> SourceFile.
Variable printer : Node -> string.

(** Modelled from the spec: [replaceNode] of the class [ChangeTracker].
    The tracker accumulates the logical edits in the order they are
    scheduled; a replacement node is printed when it is scheduled. *)
Definition replaceNode (oldNode newNode : Node) (tracker : list Edit) : list Edit :=
  tracker ++ [Replace (fileName (getSourceFile oldNode))
                      (getStart oldNode) (getWidth oldNode) (printer newNode)].

(** Modelled from the spec: [removeNode] of the class [ChangeTracker]. *)
Definition removeNode (node : Node) (tracker : list Edit) : list Edit :=
  tracker ++ [Remove (fileName (getSourceFile node)) (getStart node) (getWidth node)].

(** Modelled from the spec: [insertText] of the class [ChangeTracker]. *)
Definition insertText (file : string) (pos : Z) (newText : string)
    (tracker : list Edit) : list Edit :=
  tracker ++ [Insert file pos newText].

End Scheduling.

(** Modelled from the spec: step (1) of [recordChanges], group by file, each
    group in scheduling order. *)
Definition groupByFile (tracker : list Edit) : gmap string (list PendingChange) :=
  foldl (fun m e => <[fileOf e := default [] (m !! fileOf e) ++ [toChange e]]> m) ∅ tracker.

(** Modelled from the spec: step (2) of [recordChanges], sort by start
    offset ascending; changes with the same start keep their scheduling
    order. *)
Fixpoint insertByStart (c : PendingChange) (l : list PendingChange) : list PendingChange :=
  match l with
  | [] => [c]
  | d :: rest =>
      if start c <=? start d then c :: d :: rest else d :: insertByStart c rest
  end.

(** Modelled from the spec: step (2) of [recordChanges], as an insertion
    sort. *)
Definition sortByStart (l : list PendingChange) : list PendingChange :=
  foldr insertByStart [] l.

(** Modelled from the spec: step (3) of [recordChanges], of the operations
    scheduled for one exact range the last wins. *)
Fixpoint lastWins (l : list PendingChange) : list PendingChange :=
  match l with
  | [] => []
  | c :: rest => if existsb (sameRange c) rest then lastWins rest else c :: lastWins rest
  end.

(** Modelled from the spec: step (4) of [recordChanges], what still overlaps
    is a conflict. *)
Fixpoint hasConflict (l : list PendingChange) : bool :=
  match l with
  | [] => false
  | c :: rest => existsb (overlaps c) rest || hasConflict rest
  end.

(** Modelled from the spec: steps (2) and (3) for the changes of one file. *)
Definition resolve (l : list PendingChange) : list PendingChange :=
  lastWins (sortByStart l).

(** Modelled from the spec: [recordChanges] of the class [ChangeTracker];
    conflicting edits fail loudly. *)
Definition recordChanges (tracker : list Edit) : Result (gmap string (list PendingChange)) :=
  let changes := resolve <$> groupByFile tracker in
  if forallb (fun fc => negb (hasConflict fc.2)) (map_to_list changes)
  then Ok changes
  else Throw ConflictingEdits.

End Tracker.

(** ** Route rewriter: [migrateRoutesArray] *)
Module Rewriter.
Import Tracker.

(** The two things the loop of [migrateRoutesArray] updates. *)
Record State : Type := mkState {
  tracker : list Edit;
  importsToRemove : list Node
}.

Section Migrate.
Variable typeChecker : TypeChecker.
Variable templateTypeChecker : TemplateTypeChecker.
Variable getSourceFile : Node -> SourceFile.
Variable printer : Node -> string.

(** [metadata != null && metadata.isStandalone]; the call that yields
    [metadata] throws on the [null] that [componentDeclaration!] lets
    through. *)
Definition isStandaloneComponent (node : option Node) : Result bool :=
  metadata ← directiveMetadata templateTypeChecker node;
  Ok match metadata with
     | Some metadata => isStandalone metadata
     | None => false
     end.

(** The node built with [ts.factory] at lines 140-178:
    [loadComponent: () => import('<fileName>').then(m => m.<name>)].
    [createPropertyAccessExpression] inspects the kind of the name it is
    given, which [componentDeclaration.name!] leaves [undefined] for a class
    without a name. *)
Definition createLoadComponent (componentDeclaration : Node) : Result Node :=
  match name componentDeclaration with
  | None => Throw TypeError
  | Some className =>
      Ok (PropertyAssignment synthesized
            (Identifier synthesized "loadComponent")
            (ArrowFunction synthesized []
               (CallExpression synthesized
                  (PropertyAccessExpression synthesized
                     (CallExpression synthesized
                        (Identifier synthesized "import") []
                        [StringLiteral synthesized
                           (fileName (getSourceFile componentDeclaration))])
                     (Identifier synthesized "then"))
                  []
                  [ArrowFunction synthesized
                     [ParameterDeclaration synthesized (Identifier synthesized "m")]
                     (PropertyAccessExpression synthesized
                        (Identifier synthesized "m") className)])))
  end.

(** Lines 133-184, the body of [if (ts.isIdentifier(component))]. *)
Definition migrateComponent (component : Node) (st : State) : Result State :=
  let componentDeclaration := findClassDeclaration typeChecker component in
  standalone ← isStandaloneComponent componentDeclaration;
  if negb standalone then Ok st
  else
    match componentDeclaration with
    | Some declaration =>
        loadComponent ← createLoadComponent declaration;
        Ok {| tracker := replaceNode getSourceFile printer component loadComponent (tracker st);
              importsToRemove :=
                importsToRemove st
                ++ filter (fun s => isImportDeclaration s)
                     (statements (getSourceFile declaration)) |}
    | None => Ok st
    end.

(** Lines 129-187, the body of [for (const route of routes)]. *)
Definition migrateRoute (st : State) (route : Node) : Result State :=
  if isObjectLiteralExpression route then
    component ← findLiteralProperty route "component";
    match component with
    | Some component =>
        if isIdentifier component then migrateComponent component st else Ok st
    | None => Ok st
    end
  else Ok st.

(** Lines 190-192. *)
Definition removeImports (st : State) : list Edit :=
  foldl (fun t importToRemove => removeNode getSourceFile importToRemove t)
        (tracker st) (importsToRemove st).

(** Only an array literal expression has [elements]. *)
Definition migrateRoutesArray (routesArray : Node) (tracker : list Edit) : Result (list Edit) :=
  match routesArray with
  | ArrayLiteralExpression _ routes =>
      st ← forOf migrateRoute routes (mkState tracker []);
      Ok (removeImports st)
  | _ => Throw TypeError
  end.

End Migrate.
End Rewriter.

(** ** Orchestrator: [toLazyStandaloneRoutes] *)
Module Orchestrator.
Import Tracker.

(** What the migration uses of an [NgtscProgram]; [getSourceFile] stands for
    the parent links of the program's nodes, which the syntax trees of [Ts]
    do not carry. *)
Record NgtscProgram : Type := mkProgram {
  getTypeChecker : TypeChecker;
  getTemplateTypeChecker : TemplateTypeChecker;
  getSourceFile : Node -> SourceFile
}.

(** The optional [fileImportRemapper] only reaches the tracker's import
    bookkeeping, which the migration never calls; it is left out. *)
Definition toLazyStandaloneRoutes (sourceFiles : list SourceFile)
    (program : NgtscProgram) (printer : Node -> string)
  : Result (gmap string (list PendingChange)) :=
  let templateTypeChecker := getTemplateTypeChecker program in
  let typeChecker := getTypeChecker program in
  tracker ← forOf (fun tracker sourceFile =>
      routeArraysToMigrate ← Locator.findRoutesArrayToMigrate typeChecker sourceFile;
      forOf (fun tracker routeArray =>
          Rewriter.migrateRoutesArray typeChecker templateTypeChecker
            (getSourceFile program) printer routeArray tracker)
        routeArraysToMigrate tracker)
    sourceFiles [];
  recordChanges tracker.

End Orchestrator.

(** ** A small program to run the migration on *)
Module Fixture.
Import Orchestrator.

Definition ident (start : Z) (text : string) : Node :=
  Identifier (mkLoc start (Z.of_nat (String.length text))) text.

(** foo.component.ts:
<<
import {Component} from '@angular/core';
import {Bar} from './bar';
export class Foo {}
>> *)
Definition importCore : Node :=
  ImportDeclaration (mkLoc 0 40)
    [OtherNode "ImportClause" (mkLoc 7 11) None [ident 8 "Component"];
     StringLiteral (mkLoc 24 15) "@angular/core"].

Definition importBar : Node :=
  ImportDeclaration (mkLoc 41 26)
    [OtherNode "ImportClause" (mkLoc 48 5) None [ident 49 "Bar"];
     StringLiteral (mkLoc 59 7) "./bar"].

Definition classFoo : Node :=
  ClassDeclaration (mkLoc 68 19) (Some (ident 81 "Foo"))
    [OtherNode "ExportKeyword" (mkLoc 68 6) None []; ident 81 "Foo"].

Definition fooFile : SourceFile :=
  mkSourceFile "/app/foo.component.ts" [importCore; importBar; classFoo].

(** The reference [Foo] and the route [{ path: 'x', component: Foo }], as
    they stand at offset 15 of a file. *)
Definition fooRef : Node := ident 39 "Foo".

Definition componentProperty : Node :=
  PropertyAssignment (mkLoc 28 14) (ident 28 "component") fooRef.

Definition route : Node :=
  ObjectLiteralExpression (mkLoc 15 29)
    [PropertyAssignment (mkLoc 17 9) (ident 17 "path") (StringLiteral (mkLoc 23 3) "'x'");
     componentProperty].

Definition routes : Node := ArrayLiteralExpression (mkLoc 14 31) [route].

Definition statement (expression : Node) : Node :=
  OtherNode "ExpressionStatement" (mkLoc 0 (getWidth expression + 1)) None [expression].

(** app.config.ts: [provideRouter([{ path: 'x', component: Foo }]);] *)
Definition provideRouterCall : Node :=
  CallExpression (mkLoc 0 46) (ident 0 "provideRouter") [] [routes].

Definition appFile : SourceFile :=
  mkSourceFile "/app/app.config.ts" [statement provideRouterCall].

(** widget.ts declares [Widget] twice, as an interface and as a class. *)
Definition interfaceWidget : Node :=
  OtherNode "InterfaceDeclaration" (mkLoc 0 26) (Some (ident 17 "Widget")) [ident 17 "Widget"].

Definition classWidget : Node :=
  ClassDeclaration (mkLoc 27 22) (Some (ident 40 "Widget"))
    [OtherNode "ExportKeyword" (mkLoc 27 6) None []; ident 40 "Widget"].

(** The checkers: an identifier is bound to the symbol of its own name; the
    type of [Foo], and of a property initialized with [Foo], is the class
    declared in foo.component.ts; [globalThis] has a symbol without
    declarations; a class has component metadata, standalone or not as
    [standalone] says. *)
Definition typeOfName (t : string) : Type_ :=
  if String.eqb t "Foo" then mkType (Some (mkSymbol "Foo" (Some [classFoo])))
  else if String.eqb t "Widget"
       then mkType (Some (mkSymbol "Widget" (Some [interfaceWidget; classWidget])))
  else if String.eqb t "globalThis" then mkType (Some (mkSymbol "globalThis" None))
  else mkType None.

Definition checker : TypeChecker :=
  mkTypeChecker
    (fun n => match n with
              | Identifier _ t => Some (mkSymbol t None)
              | _ => None
              end)
    (fun n => match n with
              | Identifier _ t | PropertyAssignment _ _ (Identifier _ t) => typeOfName t
              | _ => mkType None
              end).

Definition templateChecker (standalone : bool) : TemplateTypeChecker :=
  mkTemplateTypeChecker
    (fun n => match n with
              | ClassDeclaration _ _ _ => Some (mkDirectiveMeta standalone)
              | _ => None
              end).

Definition sourceFileOf (n : Node) : SourceFile :=
  if isImportDeclaration n || isClassDeclaration n then fooFile else appFile.

Definition program (standalone : bool) : NgtscProgram :=
  mkProgram checker (templateChecker standalone) sourceFileOf.

(** A printer for the nodes the migration synthesizes. *)
Fixpoint print (n : Node) : string :=
  let commas := fix commas (ns : list Node) : string :=
    match ns with
    | [] => ""
    | [x] => print x
    | x :: rest => print x +:+ ", " +:+ commas rest
    end in
  match n with
  | Identifier _ t => t
  | StringLiteral _ t => "'" +:+ t +:+ "'"
  | PropertyAccessExpression _ e nm => print e +:+ "." +:+ print nm
  | CallExpression _ e _ args => print e +:+ "(" +:+ commas args +:+ ")"
  | ArrayLiteralExpression _ es => "[" +:+ commas es +:+ "]"
  | ObjectLiteralExpression _ ps => "{" +:+ commas ps +:+ "}"
  | PropertyAssignment _ nm i => print nm +:+ ": " +:+ print i
  | ArrowFunction _ [ParameterDeclaration _ p] b => print p +:+ " => " +:+ print b
  | ArrowFunction _ ps b => "(" +:+ commas ps +:+ ") => " +:+ print b
  | ParameterDeclaration _ nm => print nm
  | _ => ""
  end.

(** Other call sites of the examples below. *)
Definition callOn (receiver method : string) (args : list Node) : Node :=
  CallExpression (mkLoc 0 46)
    (PropertyAccessExpression (mkLoc 0 13) (ident 0 receiver) (ident 0 method)) [] args.

(** The route [{ component: Bar }], where nothing is known of [Bar]. *)
Definition barProperty : Node :=
  PropertyAssignment (mkLoc 17 14) (ident 17 "component") (ident 28 "Bar").

Definition barRoute : Node := ObjectLiteralExpression (mkLoc 15 18) [barProperty].

(** The route [{ component: pages.Foo }], whose component is no identifier. *)
Definition memberValue : Node :=
  PropertyAccessExpression (mkLoc 28 9) (ident 28 "pages") (ident 34 "Foo").

Definition memberProperty : Node :=
  PropertyAssignment (mkLoc 17 20) (ident 17 "component") memberValue.

Definition memberRoute : Node := ObjectLiteralExpression (mkLoc 15 24) [memberProperty].

(** The edits the comment at the head of [migrateRoutesArray] describes for
    [route]: the rewritten property, and the imports of foo.component.ts. *)
Definition describedEdits : list Tracker.Edit :=
  [Tracker.Replace "/app/app.config.ts" 28 14
     "loadComponent: () => import('/app/foo.component.ts').then(m => m.Foo)";
   Tracker.Remove "/app/foo.component.ts" 0 40;
   Tracker.Remove "/app/foo.component.ts" 41 26].

(** app.module.ts:
    [@NgModule({imports: [RouterModule.forRoot([...])]}) class AppModule {}] *)
Definition appModuleFile : SourceFile :=
  mkSourceFile "/app/app.module.ts"
    [ClassDeclaration (mkLoc 0 90) (Some (ident 71 "AppModule"))
       [OtherNode "Decorator" (mkLoc 0 64) None
          [CallExpression (mkLoc 1 63) (ident 1 "NgModule") []
             [ObjectLiteralExpression (mkLoc 10 53)
                [PropertyAssignment (mkLoc 11 51) (ident 11 "imports")
                   (ArrayLiteralExpression (mkLoc 20 42)
                      [callOn "RouterModule" "forRoot" [routes]])]]];
        ident 71 "AppModule"]].

(** shared.module.ts: [TranslateModule.forChild();] *)
Definition bareFile : SourceFile :=
  mkSourceFile "/app/shared.module.ts" [statement (callOn "TranslateModule" "forChild" [])].

(** main.ts: [bootstrap;] *)
Definition plainFile : SourceFile :=
  mkSourceFile "/app/main.ts" [statement (ident 0 "bootstrap")].

(** [Router.resetConfig(someRoutesArray)] *)
Definition resetConfigCall : Node :=
  callOn "Router" "resetConfig" [ident 19 "someRoutesArray"].

(** [StoreModule.forChild([{ path: 'x', component: Foo }])] *)
Definition storeModuleCall : Node := callOn "StoreModule" "forChild" [routes].

End Fixture.

(** ** The schematic that runs the migration (index.ts of standalone-routes) *)
Module Schematic.
Import Tracker Orchestrator.

(** What the rule can end with other than its result: a
    [SchematicsException] of its own, or whatever the migration threw. *)
Inductive Failure : Type :=
| SchematicsException (message : string)
| Uncaught (e : Error).

Inductive Outcome (A : Type) : Type :=
| Done (a : A)
| Failed (f : Failure).
Arguments Done {A} a.
Arguments Failed {A} f.

#[global] Instance Outcome_ret : MRet Outcome := fun _ a => Done a.
#[global] Instance Outcome_bind : MBind Outcome := fun _ _ f m =>
  match m with
  | Done a => f a
  | Failed e => Failed e
  end.

(** [for (const x of xs) ...] where the body can fail. *)
Fixpoint forEach {A S : Type} (f : S -> A -> Outcome S) (xs : list A) (s : S) : Outcome S :=
  match xs with
  | [] => Done s
  | x :: rest => s' ← f s x; forEach f rest s'
  end.

Record Options : Type := mkOptions { path : string }.

(** The calls made on an [UpdateRecorder], and an update as committed to the
    [Tree]. Of the tree the rule only uses [beginUpdate] and
    [commitUpdate], so a tree is the list of the updates committed to it. *)
Inductive RecorderCall : Type :=
| RecorderRemove (index length : Z)
| RecorderInsertRight (index : Z) (content : string).

Record Update : Type := mkUpdate {
  updatePath : string;
  calls : list RecorderCall
}.

(** The collaborators of the rule, each as what the rule gets from it. *)
Record Host : Type := mkHost {
  (* [getProjectTsConfigPaths(tree)] *)
  buildPaths : list string;
  testPaths : list string;
  (* [process.cwd()] *)
  cwd : string;
  (* [normalizePath(join(a, b))] and [relative(a, b)] *)
  normalizedJoin : string -> string -> string;
  relative : string -> string -> string;
  (* [existsSync(p)] and [statSync(p).isDirectory()] *)
  existsSync : string -> bool;
  isDirectory : string -> bool;
  (* [createProgram] on the options of a tsconfig, for a base path: the
     program and its [getTsProgram().getSourceFiles()] *)
  createProgram : string -> string -> NgtscProgram * list SourceFile;
  canMigrateFile : string -> SourceFile -> NgtscProgram -> bool;
  (* [ts.createPrinter()] *)
  createPrinter : Node -> string
}.

(** The body of [changes.forEach]. *)
Definition applyChange (change : PendingChange) : list RecorderCall :=
  match removeLength change with
  | Some len => [RecorderRemove (start change) len]
  | None => []
  end ++ [RecorderInsertRight (start change) (text change)].

(** The body of [for (const [file, changes] of pendingChanges.entries())];
    the keys of the mapping are the file names. *)
Definition commitChanges (host : Host) (basePath : string) (tree : list Update)
    (entry : string * list PendingChange) : list Update :=
  tree ++ [mkUpdate (relative host basePath entry.1) (flat_map applyChange entry.2)].

Definition outsideProject : string :=
  "Cannot run standalone routes migration outside of the current project.".

Definition notDirectory (pathToMigrate : string) : string :=
  "Migration path " +:+ pathToMigrate
  +:+ " has to be a directory. Cannot run the standalone routes migration.".

Definition noTsconfig : string :=
  "Could not find any tsconfig file. Cannot run the standalone routes migration.".

Definition noFiles (pathToMigrate : string) : string :=
  "Could not find any files to migrate under the path " +:+ pathToMigrate
  +:+ ". Cannot run the standalone routes migration.".

(** The files of the program the migration is run on. *)
Definition filesToMigrate (host : Host) (basePath pathToMigrate : string)
    (program : NgtscProgram) (files : list SourceFile) : list SourceFile :=
  List.filter (fun sourceFile =>
      String.prefix pathToMigrate (fileName sourceFile)
      && canMigrateFile host basePath sourceFile program) files.

(** The same, for the program of a tsconfig. *)
Definition projectFiles (host : Host) (tsconfigPath basePath pathToMigrate : string)
  : list SourceFile :=
  filesToMigrate host basePath pathToMigrate
    (createProgram host tsconfigPath basePath).1 (createProgram host tsconfigPath basePath).2.

(** [standaloneRoutesMigration]; its results are the tree and the number
    the function returns. *)
Definition standaloneRoutesMigration (host : Host) (tree : list Update)
    (tsconfigPath basePath pathToMigrate : string) (schematicOptions : Options)
  : Outcome (list Update * nat) :=
  if String.prefix ".." (path schematicOptions)
  then Failed (SchematicsException outsideProject)
  else
    let (program, files) := createProgram host tsconfigPath basePath in
    let printer := createPrinter host in
    if existsSync host pathToMigrate && negb (isDirectory host pathToMigrate)
    then Failed (SchematicsException (notDirectory pathToMigrate))
    else
      let sourceFiles := filesToMigrate host basePath pathToMigrate program files in
      if (length sourceFiles =? 0)%nat then Done (tree, 0%nat)
      else
        match toLazyStandaloneRoutes sourceFiles program printer with
        | Throw e => Failed (Uncaught e)
        | Ok pendingChanges =>
            Done (foldl (commitChanges host basePath) tree (map_to_list pendingChanges),
                  length sourceFiles)
        end.

Definition messages : list string :=
  ["🎉 Automated migration step has finished! 🎉";
   "IMPORTANT! Please verify manually that your application builds and behaves as expected.";
   "See https://angular.dev/reference/migrations/standalone-routes for more information."].

(** The body of [for (const tsconfigPath of allPaths)]:
    [migratedFiles += standaloneRoutesMigration(...)]. *)
Definition migrateProject (host : Host) (options : Options)
    (basePath pathToMigrate : string) (run : list Update * nat) (tsconfigPath : string)
  : Outcome (list Update * nat) :=
  step ← standaloneRoutesMigration host run.1 tsconfigPath basePath pathToMigrate options;
  Done (step.1, (run.2 + step.2)%nat).

(** The rule the default export returns; its results are the tree and what
    was logged with [context.logger.info]. *)
Definition rule (host : Host) (options : Options) (tree : list Update)
  : Outcome (list Update * list string) :=
  let allPaths := buildPaths host ++ testPaths host in
  let basePath := cwd host in
  let pathToMigrate := normalizedJoin host basePath (path options) in
  if (length allPaths =? 0)%nat
  then Failed (SchematicsException noTsconfig)
  else
    run ← forEach (migrateProject host options basePath pathToMigrate) allPaths (tree, 0%nat);
    if (run.2 =? 0)%nat
    then Failed (SchematicsException (noFiles pathToMigrate))
    else Done (run.1, messages).

End Schematic.

(** ** A workspace to run the schematic in *)
Module Workspace.
Import Fixture.

(** A workspace at /app with two tsconfig files, whose programs hold the
    two files above and one of a library. *)
Definition libFile : SourceFile :=
  mkSourceFile "/node_modules/lib/index.d.ts" [statement (ident 0 "lib")].

Definition workspace (standalone : bool) : Schematic.Host :=
  Schematic.mkHost ["/app/tsconfig.app.json"] ["/app/tsconfig.spec.json"] "/app"
    (fun a b => if String.eqb b "." then a else a +:+ "/" +:+ b)
    (fun a b => if String.prefix (a +:+ "/") b
                then String.substring (S (String.length a)) (String.length b) b
                else b)
    (fun p => negb (String.eqb p "/app/missing"))
    (fun p => negb (String.eqb p "/app/package.json"))
    (fun _ _ => (program standalone, [appFile; fooFile; libFile]))
    (fun _ sourceFile _ => negb (String.prefix "/node_modules" (fileName sourceFile)))
    print.

End Workspace.

(** ** The placeholder registry of the i18n message extraction *)
Module Placeholders.

Definition TAG_TO_PLACEHOLDER_NAMES : gmap string string :=
  list_to_map
    [("A", "LINK"); ("B", "BOLD_TEXT"); ("BR", "LINE_BREAK"); ("EM", "EMPHASISED_TEXT");
     ("H1", "HEADING_LEVEL1"); ("H2", "HEADING_LEVEL2"); ("H3", "HEADING_LEVEL3");
     ("H4", "HEADING_LEVEL4"); ("H5", "HEADING_LEVEL5"); ("H6", "HEADING_LEVEL6");
     ("HR", "HORIZONTAL_RULE"); ("I", "ITALIC_TEXT"); ("LI", "LIST_ITEM");
     ("LINK", "MEDIA_LINK"); ("OL", "ORDERED_LIST"); ("P", "PARAGRAPH");
     ("Q", "QUOTATION"); ("S", "STRIKETHROUGH_TEXT"); ("SMALL", "SMALL_TEXT");
     ("SUB", "SUBSTRIPT"); ("SUP", "SUPERSCRIPT"); ("TBODY", "TABLE_BODY");
     ("TD", "TABLE_CELL"); ("TFOOT", "TABLE_FOOTER"); ("TH", "TABLE_HEADER_CELL");
     ("THEAD", "TABLE_HEADER"); ("TR", "TABLE_ROW"); ("TT", "MONOSPACED_TEXT");
     ("U", "UNDERLINED_TEXT"); ("UL", "UNORDERED_LIST")].

(** The two private fields; both objects are used as dictionaries, and the
    maps hold their own properties. The keys the class uses (upper-cased
    names, signatures that start with [<] or [PH: ]) never name a property
    that an object inherits; the counts are the whole numbers the class
    writes. *)
Record PlaceholderRegistry : Type := mkRegistry {
  _placeHolderNameCounts : gmap string nat;
  _signatureToName : gmap string string
}.

(** [new PlaceholderRegistry()] *)
Definition newRegistry : PlaceholderRegistry := mkRegistry ∅ ∅.

(** [a || b] on a string that may be [undefined]: the empty string is
    falsy. *)
Definition orElse (a : option string) (b : string) : string :=
  match a with
  | Some s => if String.eqb s "" then b else s
  | None => b
  end.

(** The test [if (this._signatureToName[signature])] and the value it
    returns. *)
Definition cached (r : PlaceholderRegistry) (signature : string) : option string :=
  match _signatureToName r !! signature with
  | Some name => if String.eqb name "" then None else Some name
  | None => None
  end.

(** [this._signatureToName[signature] = name] *)
Definition remember (signature name : string) (r : PlaceholderRegistry) : PlaceholderRegistry :=
  mkRegistry (_placeHolderNameCounts r) (<[signature := name]> (_signatureToName r)).

(** The names of the properties an object inherits from
    [Object.prototype]. Read from the counts, such a key yields the
    inherited value where an own property is missing, and [__proto__] takes
    no number when written. *)
Definition inheritedKeys : list string :=
  ["constructor"; "__defineGetter__"; "__defineSetter__"; "hasOwnProperty";
   "__lookupGetter__"; "__lookupSetter__"; "isPrototypeOf"; "propertyIsEnumerable";
   "toString"; "valueOf"; "__proto__"; "toLocaleString"].

(** The counts are numbers of JavaScript: up to this one [next++] adds one,
    from it on the sum is rounded back. *)
Definition maxExactCount : N := 2 ^ 53.

(** [_generateUniqueName]: [!next] holds for [undefined] and for [0]. The
    definition follows the method for a [base] outside [inheritedKeys] and
    counts below [maxExactCount]. *)
Definition _generateUniqueName (base : string) (r : PlaceholderRegistry)
  : string * PlaceholderRegistry :=
  let '(name, next) :=
    match _placeHolderNameCounts r !! base with
    | Some (S n) => (base +:+ "_" +:+ pretty (S n), S (S n))
    | _ => (base, 1%nat)
    end in
  (name, mkRegistry (<[base := next]> (_placeHolderNameCounts r)) (_signatureToName r)).

(** The number the next name for [base] will carry; 0 stands for the plain
    [base]. *)
Definition rank (r : PlaceholderRegistry) (base : string) : nat :=
  default 0%nat (_placeHolderNameCounts r !! base).

(** [c] occurs in [s]. *)
Fixpoint mentions (c : Ascii.ascii) (s : string) : bool :=
  match s with
  | EmptyString => false
  | String a rest => Ascii.eqb a c || mentions c rest
  end.

(** The character [=]. *)
Definition equalsSign : Ascii.ascii := Ascii.ascii_of_nat 61.

(** The signature [getPlaceholderName] computes, from the upper-cased name. *)
Definition placeholderSignature (upperName content : string) : string :=
  "PH: " +:+ upperName +:+ "=" +:+ content.

(** [name] is one of the names already generated from [base]. *)
Definition Issued (r : PlaceholderRegistry) (base name : string) : Prop :=
  (name = base ∧ (1 ≤ rank r base)%nat)
  ∨ ∃ k, (1 ≤ k)%nat ∧ (k < rank r base)%nat ∧ name = base +:+ "_" +:+ pretty k.

Section Registry.
(** [String.prototype.toUpperCase] *)
Variable toUpperCase : string -> string.

(** [_hashTag]. The attributes are given as the list of the own properties
    of [attrs] in the order [Object.getOwnPropertyNames(attrs).sort()] puts
    their names, each with its value. *)
Definition _hashTag (tag : string) (attrs : list (string * string)) (isVoid : bool) : string :=
  let start := "<" +:+ toUpperCase tag in
  let strAttrs :=
    String.concat "" (map (fun attr => " " +:+ attr.1 +:+ "=" +:+ attr.2) attrs) in
  let end_ := if isVoid then "/>" else "></" +:+ toUpperCase tag +:+ ">" in
  start +:+ strAttrs +:+ end_.

Definition _hashClosingTag (tag : string) : string :=
  _hashTag ("/" +:+ toUpperCase tag) [] false.

(** The part the three public methods share: return the cached name, or
    generate one from [base] and cache it. *)
Definition lookupOrGenerate (signature base : string) (r : PlaceholderRegistry)
  : string * PlaceholderRegistry :=
  match cached r signature with
  | Some name => (name, r)
  | None =>
      let '(name, r') := _generateUniqueName base r in
      (name, remember signature name r')
  end.

Definition startTagBase (tag : string) (isVoid : bool) : string :=
  let upperTag := toUpperCase tag in
  let baseName := orElse (TAG_TO_PLACEHOLDER_NAMES !! upperTag) ("TAG_" +:+ upperTag) in
  if isVoid then baseName else "START_" +:+ baseName.

Definition closeTagBase (tag : string) : string :=
  let upperTag := toUpperCase tag in
  let baseName := orElse (TAG_TO_PLACEHOLDER_NAMES !! upperTag) ("TAG_" +:+ upperTag) in
  "CLOSE_" +:+ baseName.

Definition getStartTagPlaceholderName (tag : string) (attrs : list (string * string))
    (isVoid : bool) (r : PlaceholderRegistry) : string * PlaceholderRegistry :=
  lookupOrGenerate (_hashTag tag attrs isVoid) (startTagBase tag isVoid) r.

Definition getCloseTagPlaceholderName (tag : string) (r : PlaceholderRegistry)
  : string * PlaceholderRegistry :=
  lookupOrGenerate (_hashClosingTag tag) (closeTagBase tag) r.

Definition getPlaceholderName (name content : string) (r : PlaceholderRegistry)
  : string * PlaceholderRegistry :=
  let upperName := toUpperCase name in
  lookupOrGenerate ("PH: " +:+ upperName +:+ "=" +:+ content) upperName r.

(** A call of one of the public methods, and a series of calls on one
    registry with the names they return. *)
Inductive Request : Type :=
| StartTag (tag : string) (attrs : list (string * string)) (isVoid : bool)
| CloseTag (tag : string)
| Placeholder (name content : string).

Definition signatureOf (q : Request) : string :=
  match q with
  | StartTag tag attrs isVoid => _hashTag tag attrs isVoid
  | CloseTag tag => _hashClosingTag tag
  | Placeholder name content => "PH: " +:+ toUpperCase name +:+ "=" +:+ content
  end.

Definition baseOf (q : Request) : string :=
  match q with
  | StartTag tag _ isVoid => startTagBase tag isVoid
  | CloseTag tag => closeTagBase tag
  | Placeholder name _ => toUpperCase name
  end.

Definition answer (q : Request) (r : PlaceholderRegistry) : string * PlaceholderRegistry :=
  match q with
  | StartTag tag attrs isVoid => getStartTagPlaceholderName tag attrs isVoid r
  | CloseTag tag => getCloseTagPlaceholderName tag r
  | Placeholder name content => getPlaceholderName name content r
  end.

Fixpoint answers (qs : list Request) (r : PlaceholderRegistry)
  : list string * PlaceholderRegistry :=
  match qs with
  | [] => ([], r)
  | q :: rest =>
      let '(name, r') := answer q r in
      let '(names, r'') := answers rest r' in
      (name :: names, r'')
  end.

(** A request whose placeholder name, if it has one, is free of [=]. *)
Definition Plain (q : Request) : Prop :=
  match q with
  | Placeholder name _ => mentions equalsSign (toUpperCase name) = false
  | _ => True
  end.

End Registry.

(** A series of calls of [_generateUniqueName] on one registry. *)
Fixpoint generateAll (bases : list string) (r : PlaceholderRegistry)
  : list string * PlaceholderRegistry :=
  match bases with
  | [] => ([], r)
  | base :: rest =>
      let '(name, r') := _generateUniqueName base r in
      let '(names, r'') := generateAll rest r' in
      (name :: names, r'')
  end.

(** [toUpperCase] on the letters a-z, for the examples. *)
Definition upperAscii (c : Ascii.ascii) : Ascii.ascii :=
  let n := Ascii.nat_of_ascii c in
  if (97 <=? n)%nat && (n <=? 122)%nat then Ascii.ascii_of_nat (n - 32) else c.

Fixpoint upper (s : string) : string :=
  match s with
  | EmptyString => EmptyString
  | String c rest => String (upperAscii c) (upper rest)
  end.

End Placeholders.

(** ** Vocabulary for the call sites the locator looks at *)
Module Recognition.

(** The type checker binds [node] to a symbol named [s]. *)
Definition BoundTo (typeChecker : TypeChecker) (node : Node) (s : string) : Prop :=
  ∃ sym, getSymbolAtLocation typeChecker node = Some sym ∧ symbolName sym = s.

(** [call] passes the two tests [walk] makes before it reads the first
    argument. *)
Definition Recognized (typeChecker : TypeChecker) (call : Node) : Prop :=
  isCallExpression call = true ∧ Locator.isRouteRegistration typeChecker call = true.

(** [arr] is an array literal and the first argument of a recognized call at
    or below [root]. *)
Definition LocatedWithin (typeChecker : TypeChecker) (root arr : Node) : Prop :=
  ∃ call, Within root call ∧ Recognized typeChecker call
          ∧ arguments call !! 0%nat = Some arr ∧ isArrayLiteralExpression arr = true.

(** The same, for a call of the file. *)
Definition LocatedIn (typeChecker : TypeChecker) (sourceFile : SourceFile) (arr : Node) : Prop :=
  ∃ call, InSourceFile sourceFile call ∧ Recognized typeChecker call
          ∧ arguments call !! 0%nat = Some arr ∧ isArrayLiteralExpression arr = true.

(** A recognized call at or below [root] that has no argument at all. *)
Definition BareWithin (typeChecker : TypeChecker) (root : Node) : Prop :=
  ∃ call, Within root call ∧ Recognized typeChecker call ∧ arguments call = [].

(** A recognized call of the file that has no argument at all. *)
Definition HasBareRegistration (typeChecker : TypeChecker) (sourceFile : SourceFile) : Prop :=
  ∃ call, InSourceFile sourceFile call ∧ Recognized typeChecker call
          ∧ arguments call = [].

End Recognition.

(** * Properties *)

(** ** Syntax trees *)
Module TsFacts.

(** Induction over a tree through [children]. *)
Lemma Node_children_ind (P : Node -> Prop) :
  (∀ n, Forall P (children n) -> P n) -> ∀ n, P n.
Proof.
  intros step. fix IH 1. intros n. apply step.
  destruct n as [| |? e nm|? e targs args|? es|? ps|? nm i|? ps b|? nm|? cs|? ? cs|? ? ? cs];
    simpl.
  - constructor.
  - constructor.
  - repeat constructor; apply IH.
  - constructor; [apply IH|]. apply Forall_app; split.
    + induction targs; constructor; [apply IH|assumption].
    + induction args; constructor; [apply IH|assumption].
  - induction es; constructor; [apply IH|assumption].
  - induction ps; constructor; [apply IH|assumption].
  - repeat constructor; apply IH.
  - apply Forall_app; split; [|repeat constructor; apply IH].
    induction ps; constructor; [apply IH|assumption].
  - repeat constructor; apply IH.
  - induction cs; constructor; [apply IH|assumption].
  - induction cs; constructor; [apply IH|assumption].
  - induction cs; constructor; [apply IH|assumption].
Qed.

Lemma Within_trans root mid n : Within root mid -> Within mid n -> Within root n.
Proof.
  intros Hmid Hn. induction Hn as [|parent n _ IH Hchild]; [assumption|].
  exact (Within_child root parent n IH Hchild).
Qed.

Lemma Within_child_of parent n : n ∈ children parent -> Within parent n.
Proof. intros Hn. exact (Within_child parent parent n (Within_self parent) Hn). Qed.

End TsFacts.

(** ** Throwing code *)
Module ResultFacts.

Lemma bind_Ok {A B : Type} (m : Result A) (f : A -> Result B) (b : B) :
  m ≫= f = Ok b <-> ∃ a, m = Ok a ∧ f a = Ok b.
Proof.
  destruct m as [a|e]; simpl; split.
  - intros H. exists a. split; [reflexivity|exact H].
  - intros (a' & Ha & Hf). injection Ha as ->. exact Hf.
  - discriminate.
  - intros (a' & Ha & _). discriminate.
Qed.

Lemma forOf_app {A S : Type} (f : S -> A -> Result S) (xs ys : list A) (s : S) :
  forOf f (xs ++ ys) s = forOf f xs s ≫= forOf f ys.
Proof.
  revert s. induction xs as [|x xs IH]; intros s; simpl; [reflexivity|].
  destruct (f s x) as [s'|e]; simpl; [apply IH|reflexivity].
Qed.

(** A loop whose body leaves the state alone leaves it alone. *)
Lemma forOf_unchanged {A S : Type} (f : S -> A -> Result S) (xs : list A) (s : S) :
  Forall (fun x => f s x = Ok s) xs -> forOf f xs s = Ok s.
Proof.
  induction 1 as [|x xs Hx _ IH]; simpl; [reflexivity|].
  rewrite Hx. simpl. exact IH.
Qed.

Lemma forOf_same {A S : Type} (f : S -> A -> Result S) (xs : list A) :
  (∀ s x s', f s x = Ok s' -> s' = s) ->
  ∀ s s', forOf f xs s = Ok s' -> s' = s.
Proof.
  intros Hf. induction xs as [|x xs IH]; intros s s'; simpl.
  - by intros [= <-].
  - intros (mid & Hstep & Hrest)%bind_Ok.
    apply Hf in Hstep as ->. by apply IH.
Qed.

End ResultFacts.

(** ** The locator *)
Module LocatorFacts.
Import Locator TsFacts ResultFacts.

Section Facts.
Variable typeChecker : TypeChecker.

Abbreviation visit := (visit typeChecker).
Abbreviation walk := (walk typeChecker).
Abbreviation forEachChild := (forEachChild typeChecker).

(** [walk] is [visit] followed by [walk] on every child. *)
Lemma walk_unfold node routesArrays :
  walk node routesArrays = visit node routesArrays ≫= forEachChild (children node).
Proof.
  assert (each : ∀ cs acc,
    (fix each (cs : list Node) (acc : list Node) {struct cs} : Result (list Node) :=
       match cs with
       | [] => Ok acc
       | c :: rest => acc' ← walk c acc; each rest acc'
       end) cs acc = forEachChild cs acc).
  { induction cs as [|c cs IH]; intros acc; [reflexivity|].
    unfold forEachChild. simpl. destruct (walk c acc); simpl; [apply IH|reflexivity]. }
  destruct node as [| |? e nm|? e targs args|? es|? ps|? nm i|? ps b|? nm|? cs|? ? cs|? ? ? cs];
    cbn [Locator.walk children];
    destruct (visit _ routesArrays) as [acc|err]; cbn [mbind Result_bind];
    try reflexivity; unfold forEachChild; rewrite ?forOf_app; cbn [forOf];
    fold (forEachChild).
  - destruct (walk e acc); simpl; [|reflexivity]. destruct (walk nm _); reflexivity.
  - destruct (walk e acc) as [acc1|]; simpl; [|reflexivity].
    rewrite forOf_app, each. unfold Locator.forEachChild.
    destruct (forOf _ targs acc1); simpl; [apply each|reflexivity].
  - apply each.
  - apply each.
  - destruct (walk nm acc); simpl; [|reflexivity]. destruct (walk i _); reflexivity.
  - rewrite each. unfold Locator.forEachChild.
    destruct (forOf _ ps acc); simpl; [|reflexivity].
    destruct (walk b _); reflexivity.
  - destruct (walk nm acc); reflexivity.
  - apply each.
  - apply each.
  - apply each.
Qed.

(** What [visit] can add: nothing, or the first argument of the call it is
    at, which then is an array literal. *)
Lemma visit_Ok node acc acc' :
  visit node acc = Ok acc' ->
  acc' = acc
  ∨ ∃ arg, acc' = acc ++ [arg] ∧ isCallExpression node = true
           ∧ isRouteRegistration typeChecker node = true
           ∧ isArrayLiteralExpression arg = true
           ∧ arguments node !! 0%nat = Some arg.
Proof.
  unfold Locator.visit.
  destruct (isCallExpression node) eqn:Hcall; [|intros [= <-]; by left].
  destruct (isRouteRegistration typeChecker node) eqn:Hreg; [|intros [= <-]; by left].
  destruct (arguments node !! 0%nat) as [arg|] eqn:Harg; [|discriminate].
  destruct (isArrayLiteralExpression arg) eqn:Harr; intros [= <-]; [right|by left].
  by exists arg.
Qed.

Lemma forEachChild_Ok (P : Node -> Node -> Prop) cs :
  Forall (fun c => ∀ acc acc', walk c acc = Ok acc' ->
            ∃ new, acc' = acc ++ new ∧ Forall (P c) new) cs ->
  ∀ acc acc', forEachChild cs acc = Ok acc' ->
    ∃ new, acc' = acc ++ new ∧ Forall (fun a => ∃ c, c ∈ cs ∧ P c a) new.
Proof.
  unfold Locator.forEachChild.
  induction 1 as [|c cs Hc _ IH]; intros acc acc'; simpl.
  - intros [= <-]. exists []. by rewrite app_nil_r.
  - intros (mid & Hwalk & Hrest)%bind_Ok.
    destruct (Hc _ _ Hwalk) as (new1 & -> & Hnew1).
    destruct (IH _ _ Hrest) as (new2 & -> & Hnew2).
    exists (new1 ++ new2). split; [by rewrite app_assoc|].
    apply Forall_app. split.
    + eapply Forall_impl; [exact Hnew1|]. intros a Ha. exists c. split; [left|exact Ha].
    + eapply Forall_impl; [exact Hnew2|]. intros a (c' & Hin & Ha).
      exists c'. split; [by right|exact Ha].
Qed.

Lemma walk_Ok node :
  ∀ acc acc', walk node acc = Ok acc' ->
    ∃ new, acc' = acc ++ new
           ∧ Forall (fun a => isArrayLiteralExpression a = true
                              ∧ FirstArgumentWithin node a) new.
Proof.
  induction node as [node IH] using Node_children_ind. intros acc acc'.
  rewrite walk_unfold. intros (mid & Hvisit & Hrest)%bind_Ok.
  destruct (forEachChild_Ok _ _ IH _ _ Hrest) as (new & -> & Hnew).
  assert (Hbelow : Forall (fun a => isArrayLiteralExpression a = true
                                    ∧ FirstArgumentWithin node a) new).
  { eapply Forall_impl; [exact Hnew|].
    intros a (c & Hc & Harr & call & Hwithin & Hcall & Harg). split; [exact Harr|].
    exists call. split; [|by split].
    eapply Within_trans; [apply Within_child_of; exact Hc|exact Hwithin]. }
  destruct (visit_Ok _ _ _ Hvisit) as [->|(arg & -> & Hcall & _ & Harr & Harg)].
  - by exists new.
  - exists (arg :: new). split; [by rewrite <- app_assoc|].
    constructor; [|exact Hbelow]. split; [exact Harr|].
    exists node. split; [apply Within_self|by split].
Qed.

End Facts.

(** C10: every element of the list [findRoutesArrayToMigrate] returns is an
    array literal expression, and is the first argument of a call
    expression of the given source file. *)
Theorem findRoutesArrayToMigrate_array_literals typeChecker sourceFile routesArrays :
  findRoutesArrayToMigrate typeChecker sourceFile = Ok routesArrays ->
  Forall (fun arr => isArrayLiteralExpression arr = true
                     ∧ FirstArgumentIn sourceFile arr) routesArrays.
Proof.
  unfold findRoutesArrayToMigrate. intros Hrun.
  destruct (forEachChild_Ok typeChecker
              (fun c a => isArrayLiteralExpression a = true ∧ FirstArgumentWithin c a)
              (statements sourceFile)) with (acc := @nil Node) (acc' := routesArrays)
    as (new & -> & Hnew).
  - apply Forall_forall. intros stmt _. apply walk_Ok.
  - exact Hrun.
  - simpl. eapply Forall_impl; [exact Hnew|].
    intros a (stmt & Hstmt & Harr & call & Hwithin & Hcall & Harg).
    split; [exact Harr|]. exists call. split; [|by split].
    exists stmt. by split.
Qed.

Lemma findRoutesArrayToMigrate_array_literals_witness :
  findRoutesArrayToMigrate Fixture.checker Fixture.appFile = Ok [Fixture.routes]
  ∧ Forall (fun arr => isArrayLiteralExpression arr = true
                       ∧ FirstArgumentIn Fixture.appFile arr) [Fixture.routes].
Proof.
  split; [reflexivity|].
  apply (findRoutesArrayToMigrate_array_literals Fixture.checker Fixture.appFile
           [Fixture.routes]).
  reflexivity.
Defined.

End LocatorFacts.

(** ** The locator on particular call sites *)
Module LocatorCases.
Import Locator LocatorFacts Fixture.

(** A call whose first argument is there and is no array literal adds
    nothing to [routesArrays], whether or not it registers routes. *)
Lemma visit_indirect typeChecker node arg rest routesArrays :
  arguments node = arg :: rest ->
  isArrayLiteralExpression arg = false ->
  visit typeChecker node routesArrays = Ok routesArrays.
Proof.
  intros Hargs Harr. unfold visit. rewrite Hargs. simpl. rewrite Harr.
  destruct (isCallExpression node), (isRouteRegistration typeChecker node); reflexivity.
Qed.

(** C7: for a call whose first argument is not an array literal expression
    (an identifier, a spread, another call, ...), the locator records nothing
    at the call itself: what walking the call yields is what walking its
    children yields. *)
Theorem indirect_argument_not_recorded typeChecker node arg rest routesArrays :
  isRouteRegistration typeChecker node = true ->
  arguments node = arg :: rest ->
  isArrayLiteralExpression arg = false ->
  visit typeChecker node routesArrays = Ok routesArrays
  ∧ walk typeChecker node routesArrays
    = forEachChild typeChecker (children node) routesArrays.
Proof.
  intros _ Hargs Harr.
  pose proof (visit_indirect typeChecker node arg rest routesArrays Hargs Harr) as Hvisit.
  split; [exact Hvisit|]. rewrite walk_unfold, Hvisit. reflexivity.
Qed.

Lemma indirect_argument_not_recorded_witness :
  isRouteRegistration checker resetConfigCall = true
  ∧ visit checker resetConfigCall [] = Ok []
  ∧ walk checker resetConfigCall [] = forEachChild checker (children resetConfigCall) [].
Proof.
  split; [reflexivity|].
  apply (indirect_argument_not_recorded checker resetConfigCall
           (ident 19 "someRoutesArray") [] []); reflexivity.
Defined.

(** The scenario of C7 as a whole file: no candidate array is located. *)
Example resetConfig_identifier_no_candidate :
  findRoutesArrayToMigrate checker
    (mkSourceFile "/app/app.component.ts" [statement resetConfigCall]) = Ok [].
Proof. reflexivity. Qed.

(** The disjunct [propAccess.name.text === 'forChild'] decides alone. *)
Lemma forChild_always_recognized typeChecker l l' receiver lname targs args :
  isRouterModuleCallExpression typeChecker
    (CallExpression l
       (PropertyAccessExpression l' receiver (Identifier lname "forChild")) targs args)
  = true.
Proof. simpl. apply orb_true_r. Qed.

(** C2: the locator is to record the array literal of [X.forChild([...])]
    only when [X] is bound to a symbol named [RouterModule]. At
    [StoreModule.forChild([...])] the receiver is bound to a symbol of
    another name, and the array literal is recorded all the same. *)
Theorem forChild_recorded_without_RouterModule :
  symbolNamed (getSymbolAtLocation checker (ident 0 "StoreModule")) "RouterModule" = false
  ∧ findRoutesArrayToMigrate checker
      (mkSourceFile "/app/store.module.ts" [statement storeModuleCall]) = Ok [routes].
Proof. split; reflexivity. Qed.

(** With [forRoot] the check of the symbol is in force. *)
Lemma forRoot_requires_RouterModule typeChecker l l' receiver lname targs args :
  isRouteRegistration typeChecker
    (CallExpression l
       (PropertyAccessExpression l' receiver (Identifier lname "forRoot")) targs args)
  = true ->
  symbolNamed (getSymbolAtLocation typeChecker receiver) "RouterModule" = true.
Proof.
  unfold isRouteRegistration. simpl. rewrite !andb_false_r, !orb_false_r, andb_true_r.
  done.
Qed.

Example forRoot_in_decorator_located :
  findRoutesArrayToMigrate checker appModuleFile = Ok [routes].
Proof. reflexivity. Qed.

Example forRoot_needs_RouterModule :
  findRoutesArrayToMigrate checker
    (mkSourceFile "/app/store.module.ts"
       [statement (callOn "StoreModule" "forRoot" [routes])]) = Ok []
  ∧ findRoutesArrayToMigrate checker
      (mkSourceFile "/app/app.module.ts"
         [statement (callOn "RouterModule" "forRoot" [routes])]) = Ok [routes].
Proof. split; reflexivity. Qed.

(** A route registration without arguments: [ts.isArrayLiteralExpression]
    is applied to [undefined]. *)
Lemma visit_no_arguments typeChecker node routesArrays :
  isCallExpression node = true ->
  isRouteRegistration typeChecker node = true ->
  arguments node = [] ->
  visit typeChecker node routesArrays = Throw TypeError.
Proof. intros Hcall Hreg Hargs. unfold visit. rewrite Hcall, Hreg, Hargs. reflexivity. Qed.

(** C8: [findRoutesArrayToMigrate] is to return normally also for a route
    registration without arguments. At [provideRouter()] and at
    [TranslateModule.forChild()] it throws. *)
Theorem findRoutesArrayToMigrate_throws_without_arguments :
  findRoutesArrayToMigrate checker
    (mkSourceFile "/app/app.config.ts"
       [statement (CallExpression (mkLoc 0 15) (ident 0 "provideRouter") [] [])])
  = Throw TypeError
  ∧ findRoutesArrayToMigrate checker
      (mkSourceFile "/app/shared.module.ts"
         [statement (callOn "TranslateModule" "forChild" [])])
    = Throw TypeError.
Proof. split; reflexivity. Qed.

End LocatorCases.

(** ** util.ts *)
Module UtilFacts.
Import Fixture.

(** [Array.prototype.find]: nothing when no element passes, else the first
    that does. *)
Lemma find_first {A : Type} (f : A -> bool) (l : list A) :
  (List.find f l = None ∧ Forall (fun x => f x = false) l)
  ∨ ∃ before x after, l = before ++ x :: after
      ∧ Forall (fun y => f y = false) before ∧ f x = true
      ∧ List.find f l = Some x.
Proof.
  induction l as [|a l IH]; simpl.
  - left. split; [reflexivity|constructor].
  - destruct (f a) eqn:Ha.
    + right. exists [], a, l. repeat split; [constructor|exact Ha].
    + destruct IH as [[Hnone Hall]|(before & x & after & -> & Hbefore & Hx & Hfind)].
      * left. split; [exact Hnone|by constructor].
      * right. exists (a :: before), x, after. repeat split; [by constructor|exact Hx|exact Hfind].
Qed.

(** C9: [findClassDeclaration] has a result for every reference: [null]
    when the type at the reference has no symbol, [null] when the symbol has
    no declarations, and otherwise the first class declaration among the
    symbol's declarations, or [null] when none of them is one. *)
Theorem findClassDeclaration_total typeChecker reference :
  (getSymbol (getTypeAtLocation typeChecker reference) = None ->
     findClassDeclaration typeChecker reference = None)
  ∧ (∀ sym, getSymbol (getTypeAtLocation typeChecker reference) = Some sym ->
       declarations sym = None ->
       findClassDeclaration typeChecker reference = None)
  ∧ (∀ sym decls, getSymbol (getTypeAtLocation typeChecker reference) = Some sym ->
       declarations sym = Some decls ->
       (findClassDeclaration typeChecker reference = None
        ∧ Forall (fun d => isClassDeclaration d = false) decls)
       ∨ ∃ before cls after, decls = before ++ cls :: after
           ∧ Forall (fun d => isClassDeclaration d = false) before
           ∧ isClassDeclaration cls = true
           ∧ findClassDeclaration typeChecker reference = Some cls).
Proof.
  unfold findClassDeclaration. repeat split.
  - intros ->. reflexivity.
  - intros sym -> ->. reflexivity.
  - intros sym decls -> ->. apply find_first.
Qed.

Lemma findClassDeclaration_total_witness :
  findClassDeclaration checker (ident 0 "Bar") = None
  ∧ findClassDeclaration checker (ident 0 "globalThis") = None
  ∧ ((findClassDeclaration checker (ident 0 "Widget") = None
      ∧ Forall (fun d => isClassDeclaration d = false) [interfaceWidget; classWidget])
     ∨ ∃ before cls after, [interfaceWidget; classWidget] = before ++ cls :: after
         ∧ Forall (fun d => isClassDeclaration d = false) before
         ∧ isClassDeclaration cls = true
         ∧ findClassDeclaration checker (ident 0 "Widget") = Some cls).
Proof.
  split; [|split].
  - apply (proj1 (findClassDeclaration_total checker (ident 0 "Bar"))). reflexivity.
  - apply (proj1 (proj2 (findClassDeclaration_total checker (ident 0 "globalThis")))
             (mkSymbol "globalThis" None)); reflexivity.
  - apply (proj2 (proj2 (findClassDeclaration_total checker (ident 0 "Widget")))
             (mkSymbol "Widget" (Some [interfaceWidget; classWidget]))); reflexivity.
Defined.

Example findClassDeclaration_skips_interface :
  findClassDeclaration checker (ident 0 "Widget") = Some classWidget.
Proof. reflexivity. Qed.

(** What [findLiteralProperty] finds has a [name], so it is no identifier. *)
Lemma findLiteralProperty_not_identifier literal name property :
  findLiteralProperty literal name = Ok (Some property) ->
  isIdentifier property = false.
Proof.
  destruct literal; try discriminate. simpl. intros [= Hfind].
  apply List.find_some in Hfind as [_ Hnamed].
  unfold isPropertyNamed in Hnamed. by destruct property.
Qed.

End UtilFacts.

(** ** The rewriter *)
Module RewriterFacts.
Import Tracker Rewriter ResultFacts UtilFacts Fixture.

Section Facts.
Variable typeChecker : TypeChecker.
Variable templateTypeChecker : TemplateTypeChecker.
Variable getSourceFile : Node -> SourceFile.
Variable printer : Node -> string.

Abbreviation isStandaloneComponent := (isStandaloneComponent templateTypeChecker).
Abbreviation findClassDeclaration := (findClassDeclaration typeChecker).
Abbreviation migrateComponent :=
  (migrateComponent typeChecker templateTypeChecker getSourceFile printer).
Abbreviation migrateRoute :=
  (migrateRoute typeChecker templateTypeChecker getSourceFile printer).
Abbreviation migrateRoutesArray :=
  (migrateRoutesArray typeChecker templateTypeChecker getSourceFile printer).
Abbreviation removeImports := (removeImports getSourceFile).

Lemma removeImports_app st :
  removeImports st
  = tracker st
    ++ map (fun imp => Remove (fileName (getSourceFile imp)) (getStart imp) (getWidth imp))
         (importsToRemove st).
Proof.
  unfold Rewriter.removeImports. destruct st as [t imports]. simpl.
  revert t. induction imports as [|imp imports IH]; intros t; simpl.
  - by rewrite app_nil_r.
  - rewrite IH. unfold removeNode. by rewrite <- app_assoc.
Qed.

(** What [migrateComponent] does, by cases. *)
Lemma migrateComponent_cases component st st' :
  migrateComponent component st = Ok st' ->
  st' = st
  ∨ ∃ declaration loadComponent,
      findClassDeclaration component = Some declaration
      ∧ isStandaloneComponent (Some declaration) = Ok true
      ∧ createLoadComponent getSourceFile declaration = Ok loadComponent
      ∧ st' = {| tracker :=
                   replaceNode getSourceFile printer component loadComponent (tracker st);
                 importsToRemove :=
                   importsToRemove st
                   ++ filter (fun s => isImportDeclaration s)
                        (statements (getSourceFile declaration)) |}.
Proof.
  unfold Rewriter.migrateComponent.
  intros (standalone & Hstandalone & Hrest)%bind_Ok.
  destruct standalone; simpl in Hrest; [|injection Hrest as <-; by left].
  destruct (Util.findClassDeclaration _ component) as [declaration|];
    [|injection Hrest as <-; by left].
  apply bind_Ok in Hrest as (loadComponent & Hcreate & [= <-]). right.
  by exists declaration, loadComponent.
Qed.

(** Behind the test of line 132, a reference that resolves to no class
    declaration reaches [getDirectiveMetadata] as [null]. *)
Lemma migrateComponent_unresolved component st :
  findClassDeclaration component = None ->
  migrateComponent component st = Throw TypeError.
Proof. intros Hnone. unfold Rewriter.migrateComponent. by rewrite Hnone. Qed.

(** The test [ts.isIdentifier(component)] is applied to the property that
    [findLiteralProperty] returned, not to its initializer, and no property
    is an identifier: the loop body never reaches [migrateComponent]. *)
Lemma migrateRoute_unchanged st route : migrateRoute st route = Ok st.
Proof.
  unfold Rewriter.migrateRoute.
  destruct (isObjectLiteralExpression route) eqn:Hobject; [|reflexivity].
  destruct (findLiteralProperty route "component") as [[component|]|] eqn:Hfind;
    simpl; [|reflexivity|by destruct route].
  by rewrite (findLiteralProperty_not_identifier _ _ _ Hfind).
Qed.

Lemma migrateRoutesArray_unchanged l routes tracker :
  migrateRoutesArray (ArrayLiteralExpression l routes) tracker = Ok tracker.
Proof.
  simpl. rewrite forOf_unchanged.
  - simpl. rewrite removeImports_app. simpl. by rewrite app_nil_r.
  - apply Forall_forall. intros route _. apply migrateRoute_unchanged.
Qed.

(** C4: a route whose [component] value, the initializer of the property,
    is not an identifier, or is a reference that resolves to no class
    declaration, is skipped: the tracker and [importsToRemove] are as
    before and nothing is thrown, and [migrateRoutesArray] does with an
    array that holds the route what it does with the array without it. The
    route never gets past the test of line 132. *)
Theorem unresolvable_component_skipped route component value st :
  findLiteralProperty route "component" = Ok (Some component) ->
  initializer component = Some value ->
  isIdentifier value = false ∨ findClassDeclaration value = None ->
  migrateRoute st route = Ok st
  ∧ ∀ l before after tracker,
      migrateRoutesArray (ArrayLiteralExpression l (before ++ route :: after)) tracker
      = migrateRoutesArray (ArrayLiteralExpression l (before ++ after)) tracker.
Proof.
  intros Hfind _ _.
  assert (Hskip : ∀ s, migrateRoute s route = Ok s).
  { intros s. unfold Rewriter.migrateRoute. rewrite Hfind.
    destruct (isObjectLiteralExpression route); [simpl|reflexivity].
    by rewrite (findLiteralProperty_not_identifier _ _ _ Hfind). }
  split; [apply Hskip|].
  intros l before after tracker. unfold Rewriter.migrateRoutesArray.
  rewrite !forOf_app.
  destruct (forOf _ before _) as [s|e]; [|reflexivity].
  simpl. by rewrite Hskip.
Qed.

(** C5: a route whose [component] resolves to a class without component
    metadata, or with metadata that is not standalone, is skipped:
    [isStandaloneComponent] is false, and the tracker and [importsToRemove]
    are as before. *)
Theorem non_standalone_component_skipped route component declaration st :
  findLiteralProperty route "component" = Ok (Some component) ->
  findClassDeclaration component = Some declaration ->
  getDirectiveMetadata templateTypeChecker declaration = None
  ∨ (∃ metadata,
       getDirectiveMetadata templateTypeChecker declaration = Some metadata
       ∧ isStandalone metadata = false) ->
  isStandaloneComponent (findClassDeclaration component) = Ok false
  ∧ migrateComponent component st = Ok st
  ∧ migrateRoute st route = Ok st.
Proof.
  intros Hfind Hclass Hmeta.
  assert (Hstandalone : isStandaloneComponent (findClassDeclaration component) = Ok false).
  { rewrite Hclass. unfold Rewriter.isStandaloneComponent. simpl.
    destruct Hmeta as [->|(metadata & -> & Hflag)]; [reflexivity|by rewrite Hflag]. }
  assert (Hcomponent : migrateComponent component st = Ok st).
  { unfold Rewriter.migrateComponent. by rewrite Hstandalone. }
  repeat split; [exact Hstandalone|exact Hcomponent|].
  unfold Rewriter.migrateRoute. rewrite Hfind.
  destruct (isObjectLiteralExpression route); [simpl|reflexivity].
  by destruct (isIdentifier component).
Qed.

End Facts.

Lemma unresolvable_component_skipped_witness :
  migrateRoute checker (templateChecker true) sourceFileOf print (mkState [] []) memberRoute
  = Ok (mkState [] [])
  ∧ migrateRoutesArray checker (templateChecker true) sourceFileOf print
      (ArrayLiteralExpression (mkLoc 14 51) ([route] ++ barRoute :: [])) []
    = migrateRoutesArray checker (templateChecker true) sourceFileOf print
        (ArrayLiteralExpression (mkLoc 14 51) ([route] ++ [])) [].
Proof.
  split.
  - apply (unresolvable_component_skipped checker (templateChecker true) sourceFileOf print
             memberRoute memberProperty memberValue (mkState [] [])).
    + reflexivity.
    + reflexivity.
    + left. reflexivity.
  - apply (unresolvable_component_skipped checker (templateChecker true) sourceFileOf print
             barRoute barProperty (ident 28 "Bar") (mkState [] [])).
    + reflexivity.
    + reflexivity.
    + right. reflexivity.
Defined.

Lemma non_standalone_component_skipped_witness :
  Rewriter.isStandaloneComponent (templateChecker false)
    (Util.findClassDeclaration checker componentProperty) = Ok false
  ∧ migrateComponent checker (templateChecker false) sourceFileOf print componentProperty
      (mkState [] []) = Ok (mkState [] [])
  ∧ migrateRoute checker (templateChecker false) sourceFileOf print (mkState [] []) route
    = Ok (mkState [] []).
Proof.
  apply (non_standalone_component_skipped checker (templateChecker false) sourceFileOf print
           route componentProperty classFoo (mkState [] [])).
  - reflexivity.
  - reflexivity.
  - right. exists (mkDirectiveMeta false). split; reflexivity.
Defined.

End RewriterFacts.

(** ** The change tracker *)
Module TrackerFacts.
Import Tracker.

Lemma StronglySorted_lookup {A : Type} (R : A -> A -> Prop) (l : list A) :
  StronglySorted R l ->
  ∀ i j a b, (i < j)%nat -> l !! i = Some a -> l !! j = Some b -> R a b.
Proof.
  induction 1 as [|x l _ IH Hx]; intros i j a b Hij Ha Hb; [done|].
  destruct j as [|j]; [lia|]. simpl in Hb.
  destruct i as [|i]; simpl in Ha.
  - injection Ha as <-. rewrite Forall_forall in Hx. apply Hx.
    by eapply list_elem_of_lookup_2.
  - apply (IH i j); [lia|done|done].
Qed.

Lemma elem_of_insertByStart x c l : x ∈ insertByStart c l <-> x = c ∨ x ∈ l.
Proof.
  induction l as [|d l IH]; simpl.
  - rewrite list_elem_of_singleton, elem_of_nil. tauto.
  - destruct (start c <=? start d); [by rewrite elem_of_cons|].
    rewrite !elem_of_cons, IH. tauto.
Qed.

Lemma insertByStart_sorted c l :
  StronglySorted startsBefore l -> StronglySorted startsBefore (insertByStart c l).
Proof.
  induction 1 as [|d l Hl IH Hd]; simpl.
  - repeat constructor.
  - destruct (start c <=? start d) eqn:Hle.
    + apply Z.leb_le in Hle. constructor; [by constructor|].
      constructor; [exact Hle|].
      eapply Forall_impl; [exact Hd|]. unfold startsBefore. intros; lia.
    + apply Z.leb_gt in Hle. constructor; [exact IH|].
      apply Forall_forall. intros x [->|Hx]%elem_of_insertByStart.
      * unfold startsBefore. lia.
      * rewrite Forall_forall in Hd. by apply Hd.
Qed.

Lemma sortByStart_sorted l : StronglySorted startsBefore (sortByStart l).
Proof.
  induction l as [|c l IH]; simpl; [constructor|]. by apply insertByStart_sorted.
Qed.

Lemma lastWins_Forall (P : PendingChange -> Prop) l : Forall P l -> Forall P (lastWins l).
Proof.
  induction 1 as [|c l Hc _ IH]; simpl; [constructor|].
  destruct (existsb (sameRange c) l); [exact IH|by constructor].
Qed.

Lemma lastWins_sorted l :
  StronglySorted startsBefore l -> StronglySorted startsBefore (lastWins l).
Proof.
  induction 1 as [|c l _ IH Hc]; simpl; [constructor|].
  destruct (existsb (sameRange c) l); [exact IH|].
  constructor; [exact IH|by apply lastWins_Forall].
Qed.

Lemma resolve_sorted l : StronglySorted startsBefore (resolve l).
Proof. apply lastWins_sorted, sortByStart_sorted. Qed.

(** Without a conflict no change overlaps a later one. *)
Lemma hasConflict_false l :
  hasConflict l = false -> StronglySorted (fun a b => overlaps a b = false) l.
Proof.
  induction l as [|c l IH]; simpl; [constructor|].
  intros [Hc Hl]%orb_false_elim. constructor; [by apply IH|].
  apply Forall_forall. intros x Hx.
  destruct (overlaps c x) eqn:Hover; [|reflexivity].
  assert (existsb (overlaps c) l = true); [|congruence].
  apply existsb_exists. exists x. split; [by apply list_elem_of_In|exact Hover].
Qed.

Lemma overlaps_false_covers a b offset :
  overlaps a b = false -> ¬ (covers a offset ∧ covers b offset).
Proof.
  unfold overlaps, covers. intros Hover [Ha Hb].
  apply andb_false_iff in Hover as [H|H]; apply Z.ltb_ge in H; lia.
Qed.

(** What [recordChanges] returns for a file is the resolved list of the
    changes scheduled for it, and has no conflict. *)
Lemma recordChanges_Ok tracker changes file cs :
  recordChanges tracker = Ok changes ->
  changes !! file = Some cs ->
  (∃ scheduled, groupByFile tracker !! file = Some scheduled ∧ cs = resolve scheduled)
  ∧ hasConflict cs = false.
Proof.
  unfold recordChanges.
  destruct (forallb _ _) eqn:Hall; [|discriminate].
  intros [= <-] Hcs. split.
  - rewrite lookup_fmap in Hcs.
    destruct (groupByFile tracker !! file) as [scheduled|]; [|discriminate].
    injection Hcs as <-. by exists scheduled.
  - rewrite forallb_forall in Hall.
    apply elem_of_map_to_list, list_elem_of_In, Hall in Hcs.
    by apply negb_true_iff in Hcs.
Qed.

(** C6: in the mapping [recordChanges] hands back, which is what the
    migration returns, the changes of every file are in ascending order of
    their start offsets, no change overlaps another, no byte of the file is
    in the range of two changes, and changes that remove something have
    distinct, strictly ascending starts. *)
Theorem recordChanges_ordered_disjoint tracker changes file cs i j a b :
  recordChanges tracker = Ok changes ->
  changes !! file = Some cs ->
  (i < j)%nat -> cs !! i = Some a -> cs !! j = Some b ->
  start a ≤ start b
  ∧ overlaps a b = false
  ∧ (∀ offset, ¬ (covers a offset ∧ covers b offset))
  ∧ (start a < changeEnd a -> start b < changeEnd b -> start a < start b).
Proof.
  intros Hrecord Hfile Hij Ha Hb.
  destruct (recordChanges_Ok _ _ _ _ Hrecord Hfile) as [(scheduled & _ & ->) Hconflict].
  pose proof (StronglySorted_lookup _ _ (resolve_sorted scheduled) i j a b Hij Ha Hb)
    as Horder.
  pose proof (StronglySorted_lookup _ _ (hasConflict_false _ Hconflict) i j a b Hij Ha Hb)
    as Hover.
  unfold startsBefore in Horder. simpl in Hover.
  split; [exact Horder|]. split; [exact Hover|].
  split; [intros offset; by apply overlaps_false_covers|].
  intros Hlena Hlenb. unfold overlaps in Hover.
  apply andb_false_iff in Hover as [H|H]; apply Z.ltb_ge in H; lia.
Qed.

Example rescheduled_range_not_duplicated :
  recordChanges [Replace "a.ts" 10 5 "x"; Remove "a.ts" 0 3; Replace "a.ts" 10 5 "z"]
  = Ok {[ "a.ts" := [mkChange 0 (Some 3) ""; mkChange 10 (Some 5) "z"] ]}.
Proof. reflexivity. Qed.

Example insertion_at_boundary_accepted :
  recordChanges [Replace "a.ts" 10 5 "x"; Insert "a.ts" 15 "y"; Insert "a.ts" 10 "w"]
  = Ok {[ "a.ts" := [mkChange 10 (Some 5) "x"; mkChange 10 None "w"; mkChange 15 None "y"] ]}.
Proof. reflexivity. Qed.

Example overlapping_ranges_rejected :
  recordChanges [Remove "a.ts" 10 5; Replace "a.ts" 12 1 "x"] = Throw ConflictingEdits.
Proof. reflexivity. Qed.

Lemma recordChanges_ordered_disjoint_witness :
  let a := mkChange 0 (Some 40) "" in
  let b := mkChange 41 (Some 26) "" in
  start a ≤ start b
  ∧ overlaps a b = false
  ∧ (∀ offset, ¬ (covers a offset ∧ covers b offset))
  ∧ (start a < changeEnd a -> start b < changeEnd b -> start a < start b).
Proof.
  intros a b.
  assert (Hrecord : ∃ changes, recordChanges Fixture.describedEdits = Ok changes
                               ∧ changes !! "/app/foo.component.ts" = Some [a; b]).
  { eexists. split; [vm_compute; reflexivity|vm_compute; reflexivity]. }
  destruct Hrecord as (changes & Hrecord & Hfile).
  apply (recordChanges_ordered_disjoint Fixture.describedEdits changes
           "/app/foo.component.ts" [a; b] 0 1 a b Hrecord Hfile);
    [lia|reflexivity|reflexivity].
Defined.

End TrackerFacts.

(** ** The whole migration *)
Module OrchestratorFacts.
Import Tracker Orchestrator ResultFacts LocatorFacts RewriterFacts Fixture.

Lemma recordChanges_nothing : recordChanges [] = Ok ∅.
Proof. reflexivity. Qed.

(** Whatever the program, the tracker is empty when [recordChanges] is
    called, because [migrateRoutesArray] schedules nothing. *)
Lemma toLazyStandaloneRoutes_nothing sourceFiles program printer changes :
  toLazyStandaloneRoutes sourceFiles program printer = Ok changes -> changes = ∅.
Proof.
  unfold toLazyStandaloneRoutes. intros (tracker & Hloop & Hrecord)%bind_Ok.
  apply forOf_same in Hloop as ->.
  - rewrite recordChanges_nothing in Hrecord. by injection Hrecord as <-.
  - clear. intros tracker sourceFile tracker' (arrays & _ & Hloop)%bind_Ok.
    revert Hloop. apply forOf_same.
    intros t routeArray t' Hmigrate.
    destruct routeArray; try discriminate.
    rewrite migrateRoutesArray_unchanged in Hmigrate. by injection Hmigrate as <-.
Qed.

(** C1: one Replace edit is to turn [component: Foo] into the
    [loadComponent] property. In the scenario app.config.ts holds
    [provideRouter([{ path: 'x', component: Foo }])], the array is located,
    [Foo] resolves to a class with standalone metadata, and yet no edit is
    scheduled and the migration returns the empty mapping. The block that
    the test [ts.isIdentifier(component)] guards would have scheduled the
    edits for the property. *)
Theorem standalone_route_not_migrated :
  Locator.findRoutesArrayToMigrate checker appFile = Ok [routes]
  ∧ Rewriter.isStandaloneComponent (templateChecker true)
      (findClassDeclaration checker fooRef) = Ok true
  ∧ Rewriter.migrateRoutesArray checker (templateChecker true) sourceFileOf print routes []
    = Ok []
  ∧ toLazyStandaloneRoutes [appFile] (program true) print = Ok ∅
  ∧ Rewriter.removeImports sourceFileOf
      <$> match Rewriter.migrateComponent checker (templateChecker true) sourceFileOf print
                  componentProperty (Rewriter.mkState [] []) with
          | Ok st => Some st
          | Throw _ => None
          end
    = Some describedEdits.
Proof. repeat split; reflexivity. Qed.


End OrchestratorFacts.

(** ** More on the locator *)
Module LocatorMore.
Import Locator Recognition TsFacts ResultFacts LocatorFacts Fixture.

Lemma Within_inv root n :
  Within root n -> n = root ∨ ∃ c, c ∈ children root ∧ Within c n.
Proof.
  induction 1 as [|parent n _ IH Hn]; [by left|]. right.
  destruct IH as [->|(c & Hc & Hparent)].
  - exists n. split; [exact Hn|apply Within_self].
  - exists c. split; [exact Hc|]. exact (Within_child c parent n Hparent Hn).
Qed.

Lemma symbolNamed_BoundTo typeChecker node s :
  symbolNamed (getSymbolAtLocation typeChecker node) s = true <-> BoundTo typeChecker node s.
Proof.
  unfold symbolNamed, BoundTo. destruct (getSymbolAtLocation typeChecker node) as [sym|].
  - rewrite String.eqb_eq. split.
    + intros Hname. by exists sym.
    + by intros (sym' & [= <-] & Hname).
  - split; [discriminate|]. by intros (sym & Hsym & _).
Qed.

Lemma textIs_text n s : textIs n s = true <-> Ts.text n = Some s.
Proof.
  unfold textIs. destruct (Ts.text n) as [t|].
  - rewrite String.eqb_eq. split; [by intros ->|by intros [= ->]].
  - split; discriminate.
Qed.

(** X1: the calls the locator recognizes are exactly these: [X.forChild(...)]
    for any [X]; [X.forRoot(...)] with [X] bound to a symbol named
    [RouterModule]; [X.resetConfig(...)] with [X] bound to a symbol named
    [Router]; and [f(...)] with the identifier [f] bound to a symbol named
    [provideRouter]. *)
Theorem recognized_calls typeChecker node :
  isRouteRegistration typeChecker node = true
  <-> ∃ l callee typeArguments args,
        node = CallExpression l callee typeArguments args
        ∧ ((∃ l' receiver member,
              callee = PropertyAccessExpression l' receiver member
              ∧ (Ts.text member = Some "forChild"
                 ∨ (Ts.text member = Some "forRoot"
                    ∧ BoundTo typeChecker receiver "RouterModule")
                 ∨ (Ts.text member = Some "resetConfig"
                    ∧ BoundTo typeChecker receiver "Router")))
           ∨ (isIdentifier callee = true ∧ BoundTo typeChecker callee "provideRouter")).
Proof.
  unfold isRouteRegistration. split.
  - destruct node as [| | |l callee targs args| | | | | | | |]; try discriminate.
    intros Hreg. exists l, callee, targs, args. split; [reflexivity|].
    destruct callee as [lc tc| |lc receiver member| | | | | | | | |]; try discriminate.
    + right. split; [reflexivity|]. simpl in Hreg.
      rewrite orb_false_r in Hreg. by apply symbolNamed_BoundTo.
    + left. exists lc, receiver, member. split; [reflexivity|]. simpl in Hreg.
      rewrite orb_false_r in Hreg.
      apply orb_true_iff in Hreg as [[Hroot|Hchild]%orb_true_iff|Hreset].
      * apply andb_true_iff in Hroot as [Hsym Htext]. right. left.
        split; [by apply textIs_text|by apply symbolNamed_BoundTo].
      * left. by apply textIs_text.
      * apply andb_true_iff in Hreset as [Hsym Htext]. right. right.
        split; [by apply textIs_text|by apply symbolNamed_BoundTo].
  - intros (l & callee & targs & args & -> & [(lc & receiver & member & -> & Hshape)|[Hid Hsym]]).
    + simpl. rewrite orb_false_r.
      destruct Hshape as [Hchild|[[Htext Hsym]|[Htext Hsym]]].
      * apply textIs_text in Hchild. rewrite Hchild. by rewrite ?orb_true_r.
      * apply textIs_text in Htext. apply symbolNamed_BoundTo in Hsym.
        by rewrite Htext, Hsym.
      * apply textIs_text in Htext. apply symbolNamed_BoundTo in Hsym.
        rewrite Htext, Hsym. by rewrite ?orb_true_r.
    + destruct callee; try discriminate. simpl.
      apply symbolNamed_BoundTo in Hsym. rewrite Hsym. by rewrite ?orb_true_r.
Qed.

Section Accumulate.
Variable typeChecker : TypeChecker.

Abbreviation visit := (visit typeChecker).
Abbreviation walk := (walk typeChecker).
Abbreviation forEachChild := (forEachChild typeChecker).

(** What was recorded before is kept, and does not influence what is
    recorded next. *)
Lemma visit_acc node acc :
  visit node acc = new ← visit node []; Ok (acc ++ new).
Proof.
  unfold Locator.visit.
  destruct (isCallExpression node), (isRouteRegistration typeChecker node);
    simpl; rewrite ?app_nil_r; try reflexivity.
  destruct (arguments node !! 0%nat) as [arg|]; [|reflexivity].
  destruct (isArrayLiteralExpression arg); simpl; by rewrite ?app_nil_r.
Qed.

Lemma forEachChild_acc cs :
  Forall (fun c => ∀ acc, walk c acc = new ← walk c []; Ok (acc ++ new)) cs ->
  ∀ acc, forEachChild cs acc = new ← forEachChild cs []; Ok (acc ++ new).
Proof.
  unfold Locator.forEachChild.
  induction 1 as [|c cs Hc _ IH]; intros acc; simpl; [by rewrite app_nil_r|].
  rewrite (Hc acc). destruct (walk c []) as [new1|e]; simpl; [|reflexivity].
  rewrite (IH (acc ++ new1)), (IH new1).
  destruct (forOf _ cs []) as [new2|e]; simpl; [|reflexivity].
  by rewrite app_assoc.
Qed.

Lemma walk_acc node : ∀ acc, walk node acc = new ← walk node []; Ok (acc ++ new).
Proof.
  induction node as [node IH] using Node_children_ind. intros acc.
  rewrite !walk_unfold, (visit_acc node acc).
  destruct (visit node []) as [new1|e]; simpl; [|reflexivity].
  rewrite (forEachChild_acc _ IH (acc ++ new1)), (forEachChild_acc _ IH new1).
  destruct (forEachChild (children node) []) as [new2|e]; simpl; [|reflexivity].
  by rewrite app_assoc.
Qed.

Lemma forEachChild_cons c cs :
  forEachChild (c :: cs) []
  = first ← walk c []; rest ← forEachChild cs []; Ok (first ++ rest).
Proof.
  unfold Locator.forEachChild at 1. simpl.
  destruct (walk c []) as [first|e]; simpl; [|reflexivity].
  fold (forEachChild cs first).
  rewrite (forEachChild_acc cs); [reflexivity|].
  apply Forall_forall. intros c' _. apply walk_acc.
Qed.

(** The three things [visit] can do, and when. *)
Lemma visit_cases node :
  (visit node [] = Ok []
   ∧ ¬ (Recognized typeChecker node ∧ arguments node = [])
   ∧ ¬ (Recognized typeChecker node
        ∧ ∃ arg, arguments node !! 0%nat = Some arg ∧ isArrayLiteralExpression arg = true))
  ∨ (∃ arg, visit node [] = Ok [arg] ∧ Recognized typeChecker node
            ∧ arguments node !! 0%nat = Some arg ∧ isArrayLiteralExpression arg = true)
  ∨ (visit node [] = Throw TypeError ∧ Recognized typeChecker node ∧ arguments node = []).
Proof.
  unfold Locator.visit, Recognized.
  destruct (isCallExpression node) eqn:Hcall;
    [|left; split; [reflexivity|]; split; intros [[? ?] _]; discriminate].
  destruct (isRouteRegistration typeChecker node) eqn:Hreg;
    [|left; split; [reflexivity|]; split; intros [[? ?] _]; discriminate].
  destruct (arguments node) as [|arg rest] eqn:Hargs; simpl.
  - right. right. done.
  - destruct (isArrayLiteralExpression arg) eqn:Harr.
    + right. left. by exists arg.
    + left. split; [reflexivity|]. split.
      * by intros [_ ?].
      * intros [_ (arg' & [= <-] & Harr')]. congruence.
Qed.

Lemma forEachChild_exact cs :
  Forall (fun c =>
    match walk c [] with
    | Ok arrs => (∀ arr, arr ∈ arrs <-> LocatedWithin typeChecker c arr)
                 ∧ ¬ BareWithin typeChecker c
    | Throw e => e = TypeError ∧ BareWithin typeChecker c
    end) cs ->
  match forEachChild cs [] with
  | Ok arrs => (∀ arr, arr ∈ arrs <-> ∃ c, c ∈ cs ∧ LocatedWithin typeChecker c arr)
               ∧ ¬ (∃ c, c ∈ cs ∧ BareWithin typeChecker c)
  | Throw e => e = TypeError ∧ ∃ c, c ∈ cs ∧ BareWithin typeChecker c
  end.
Proof.
  induction 1 as [|c cs Hc _ IH].
  - simpl. split.
    + intros arr. rewrite elem_of_nil. split; [done|]. by intros (c & Hc%elem_of_nil & _).
    + by intros (c & Hc%elem_of_nil & _).
  - rewrite forEachChild_cons.
    destruct (walk c []) as [first|e]; simpl.
    + destruct Hc as [Hfirst Hnone].
      destruct (forEachChild cs []) as [rest|e]; simpl.
      * destruct IH as [Hrest Hnone']. split.
        -- intros arr. rewrite elem_of_app, Hfirst, Hrest. split.
           ++ intros [Hloc|(c' & Hc' & Hloc)].
              ** exists c. split; [left|exact Hloc].
              ** exists c'. split; [by right|exact Hloc].
           ++ intros (c' & [->|Hc']%elem_of_cons & Hloc); [by left|].
              right. by exists c'.
        -- intros (c' & [->|Hc']%elem_of_cons & Hbare); [done|].
           apply Hnone'. by exists c'.
      * destruct IH as [-> (c' & Hc' & Hbare)]. split; [reflexivity|].
        exists c'. split; [by right|exact Hbare].
    + destruct Hc as [-> Hbare]. split; [reflexivity|].
      exists c. split; [left|exact Hbare].
Qed.

Lemma walk_exact node :
  match walk node [] with
  | Ok arrs => (∀ arr, arr ∈ arrs <-> LocatedWithin typeChecker node arr)
               ∧ ¬ BareWithin typeChecker node
  | Throw e => e = TypeError ∧ BareWithin typeChecker node
  end.
Proof.
  induction node as [node IH] using Node_children_ind.
  apply forEachChild_exact in IH.
  assert (Hbelow : ∀ (P : Node -> Prop),
            (∃ call, Within node call ∧ P call)
            <-> P node ∨ ∃ c, c ∈ children node ∧ ∃ call, Within c call ∧ P call).
  { intros P. split.
    - intros (call & [->|(c & Hc & Hwithin)]%Within_inv & HP); [by left|].
      right. exists c. split; [exact Hc|]. by exists call.
    - intros [HP|(c & Hc & call & Hwithin & HP)].
      + exists node. split; [apply Within_self|exact HP].
      + exists call. split; [|exact HP].
        eapply Within_trans; [by apply Within_child_of|exact Hwithin]. }
  rewrite walk_unfold.
  destruct (visit_cases node)
    as [(Hvisit & Hnotbare & Hnotarr)|[(arg & Hvisit & Hrec & Harg & Harr)
                                       |(Hvisit & Hrec & Hargs)]];
    rewrite Hvisit; simpl.
  - destruct (forEachChild (children node) []) as [arrs|e].
    + destruct IH as [Harrs Hnone]. split.
      * intros arr. rewrite Harrs. unfold LocatedWithin.
        rewrite (Hbelow (fun call => Recognized typeChecker call
                   ∧ arguments call !! 0%nat = Some arr
                   ∧ isArrayLiteralExpression arr = true)).
        split; [by right|]. intros [(Hrec & Harg & Harr)|Hchild]; [|exact Hchild].
        destruct Hnotarr. split; [exact Hrec|]. by exists arr.
      * unfold BareWithin.
        rewrite (Hbelow (fun call => Recognized typeChecker call ∧ arguments call = [])).
        intros [Hbare|Hchild]; [by apply Hnotbare|by apply Hnone].
    + destruct IH as [-> Hbare]. split; [reflexivity|]. unfold BareWithin.
      rewrite (Hbelow (fun call => Recognized typeChecker call ∧ arguments call = [])).
      by right.
  - rewrite (forEachChild_acc (children node)
               (proj2 (Forall_forall _ _) (fun c _ => walk_acc c)) [arg]).
    destruct (forEachChild (children node) []) as [arrs|e]; simpl.
    + destruct IH as [Harrs Hnone]. split.
      * intros arr. rewrite elem_of_cons, Harrs. unfold LocatedWithin.
        rewrite (Hbelow (fun call => Recognized typeChecker call
                   ∧ arguments call !! 0%nat = Some arr
                   ∧ isArrayLiteralExpression arr = true)).
        split.
        -- intros [->|Hchild]; [by left|by right].
        -- intros [(_ & Harg' & _)|Hchild]; [left; congruence|by right].
      * unfold BareWithin.
        rewrite (Hbelow (fun call => Recognized typeChecker call ∧ arguments call = [])).
        intros [[_ Hargs]|Hchild]; [|by apply Hnone].
        rewrite Hargs in Harg. discriminate.
    + destruct IH as [-> Hbare]. split; [reflexivity|]. unfold BareWithin.
      rewrite (Hbelow (fun call => Recognized typeChecker call ∧ arguments call = [])).
      by right.
  - split; [reflexivity|]. exists node. split; [apply Within_self|by split].
Qed.

Lemma findRoutesArrayToMigrate_exact sourceFile :
  match findRoutesArrayToMigrate typeChecker sourceFile with
  | Ok arrs => (∀ arr, arr ∈ arrs <-> LocatedIn typeChecker sourceFile arr)
               ∧ ¬ HasBareRegistration typeChecker sourceFile
  | Throw e => e = TypeError ∧ HasBareRegistration typeChecker sourceFile
  end.
Proof.
  unfold findRoutesArrayToMigrate.
  pose proof (forEachChild_exact (statements sourceFile)
                (proj2 (Forall_forall _ _) (fun c _ => walk_exact c))) as Hexact.
  assert (Hloc : ∀ arr, (∃ c, c ∈ statements sourceFile ∧ LocatedWithin typeChecker c arr)
                        <-> LocatedIn typeChecker sourceFile arr).
  { intros arr. unfold LocatedWithin, LocatedIn, InSourceFile. split.
    - intros (c & Hc & call & Hwithin & Hrest). exists call. split; [by exists c|exact Hrest].
    - intros (call & (c & Hc & Hwithin) & Hrest). exists c. split; [exact Hc|by exists call]. }
  assert (Hbare : (∃ c, c ∈ statements sourceFile ∧ BareWithin typeChecker c)
                  <-> HasBareRegistration typeChecker sourceFile).
  { unfold BareWithin, HasBareRegistration, InSourceFile. split.
    - intros (c & Hc & call & Hwithin & Hrest). exists call. split; [by exists c|exact Hrest].
    - intros (call & (c & Hc & Hwithin) & Hrest). exists c. split; [exact Hc|by exists call]. }
  destruct (forEachChild (statements sourceFile) []) as [arrs|e].
  - destruct Hexact as [Harrs Hnone]. split.
    + intros arr. by rewrite Harrs, Hloc.
    + by rewrite <- Hbare.
  - destruct Hexact as [-> Hexists]. split; [reflexivity|]. by apply Hbare.
Qed.

End Accumulate.

(** X2: when [findRoutesArrayToMigrate] returns, the arrays it returns are
    exactly the array literals that are the first argument of a recognized
    call somewhere in the file: none is missed, at any depth, and nothing
    else is returned. *)
Theorem located_exactly typeChecker sourceFile routesArrays :
  findRoutesArrayToMigrate typeChecker sourceFile = Ok routesArrays ->
  ∀ arr, arr ∈ routesArrays <-> LocatedIn typeChecker sourceFile arr.
Proof.
  intros Hrun. pose proof (findRoutesArrayToMigrate_exact typeChecker sourceFile) as Hexact.
  rewrite Hrun in Hexact. apply Hexact.
Qed.

Lemma located_exactly_witness :
  routes ∈ [routes] <-> LocatedIn checker appModuleFile routes.
Proof. apply (located_exactly checker appModuleFile [routes]). reflexivity. Defined.

(** X3: [findRoutesArrayToMigrate] throws exactly when some recognized call
    of the file, at any depth, has no argument at all; what it throws is
    always a [TypeError]. *)
Theorem throws_exactly typeChecker sourceFile :
  (findRoutesArrayToMigrate typeChecker sourceFile = Throw TypeError
   <-> HasBareRegistration typeChecker sourceFile)
  ∧ (∀ e, findRoutesArrayToMigrate typeChecker sourceFile = Throw e -> e = TypeError).
Proof.
  pose proof (findRoutesArrayToMigrate_exact typeChecker sourceFile) as Hexact.
  destruct (findRoutesArrayToMigrate typeChecker sourceFile) as [arrs|e].
  - destruct Hexact as [_ Hnone]. split; [|discriminate]. split; [discriminate|done].
  - destruct Hexact as [-> Hbare]. split; [done|]. by intros e [= <-].
Qed.

Lemma throws_exactly_witness : HasBareRegistration checker bareFile.
Proof. apply (proj1 (throws_exactly checker bareFile)). reflexivity. Defined.

(** X4: a file none of whose nodes is a recognized call yields the empty
    list, without an exception. *)
Theorem nothing_recognized_nothing_located typeChecker sourceFile :
  (∀ node, InSourceFile sourceFile node -> isRouteRegistration typeChecker node = false) ->
  findRoutesArrayToMigrate typeChecker sourceFile = Ok [].
Proof.
  intros Hnone. pose proof (findRoutesArrayToMigrate_exact typeChecker sourceFile) as Hexact.
  destruct (findRoutesArrayToMigrate typeChecker sourceFile) as [arrs|e].
  - destruct Hexact as [Harrs _]. destruct arrs as [|arr arrs]; [reflexivity|].
    destruct (proj1 (Harrs arr)) as (call & Hin & [_ Hreg] & _); [left|].
    rewrite (Hnone call Hin) in Hreg. discriminate.
  - destruct Hexact as [_ (call & Hin & [_ Hreg] & _)].
    rewrite (Hnone call Hin) in Hreg. discriminate.
Qed.

Lemma nothing_recognized_nothing_located_witness :
  findRoutesArrayToMigrate checker plainFile = Ok [].
Proof.
  apply (nothing_recognized_nothing_located checker plainFile).
  intros node (stmt & Hstmt & Hwithin).
  apply list_elem_of_singleton in Hstmt as ->.
  apply Within_inv in Hwithin as [->|(c & Hc & Hwithin)]; [reflexivity|].
  apply list_elem_of_singleton in Hc as ->.
  apply Within_inv in Hwithin as [->|(c & Hc & _)]; [reflexivity|].
  by apply elem_of_nil in Hc.
Defined.

(** X5: the statements of a file are searched one after the other: what a
    file yields is what its first statements yield followed by what the
    others yield, and an exception in the first ones is the outcome. *)
Theorem statements_compose typeChecker name first others :
  findRoutesArrayToMigrate typeChecker (mkSourceFile name (first ++ others))
  = found ← findRoutesArrayToMigrate typeChecker (mkSourceFile name first);
    more ← findRoutesArrayToMigrate typeChecker (mkSourceFile name others);
    Ok (found ++ more).
Proof.
  unfold findRoutesArrayToMigrate, forEachChild. simpl. rewrite forOf_app.
  destruct (forOf _ first []) as [found|e]; simpl; [|reflexivity].
  apply (forEachChild_acc typeChecker others).
  apply Forall_forall. intros c _. apply walk_acc.
Qed.

End LocatorMore.

(** ** More on the whole migration *)
Module OrchestratorMore.
Import Tracker Orchestrator Recognition ResultFacts LocatorMore RewriterFacts Fixture.

(** The two outcomes of [toLazyStandaloneRoutes]. *)
Lemma toLazyStandaloneRoutes_cases sourceFiles program printer :
  match toLazyStandaloneRoutes sourceFiles program printer with
  | Ok changes =>
      changes = ∅
      ∧ ∀ sf, sf ∈ sourceFiles -> ¬ HasBareRegistration (getTypeChecker program) sf
  | Throw e =>
      e = TypeError
      ∧ ∃ sf, sf ∈ sourceFiles ∧ HasBareRegistration (getTypeChecker program) sf
  end.
Proof.
  unfold toLazyStandaloneRoutes.
  set (step := fun tracker sourceFile => _).
  assert (Hloop : match forOf step sourceFiles [] with
                  | Ok tracker =>
                      tracker = []
                      ∧ ∀ sf, sf ∈ sourceFiles ->
                          ¬ HasBareRegistration (getTypeChecker program) sf
                  | Throw e =>
                      e = TypeError
                      ∧ ∃ sf, sf ∈ sourceFiles
                              ∧ HasBareRegistration (getTypeChecker program) sf
                  end).
  { assert (Hstep : ∀ sf, step [] sf
              = match Locator.findRoutesArrayToMigrate (getTypeChecker program) sf with
                | Ok _ => Ok []
                | Throw e => Throw e
                end).
    { intros sf. unfold step.
      pose proof (findRoutesArrayToMigrate_exact (getTypeChecker program) sf) as Hexact.
      destruct (Locator.findRoutesArrayToMigrate (getTypeChecker program) sf)
        as [arrays|e]; simpl; [|reflexivity].
      destruct Hexact as [Harrays _].
      apply forOf_unchanged, Forall_forall. intros arr Harr.
      apply Harrays in Harr as (_ & _ & _ & _ & Hkind).
      destruct arr; try discriminate. apply migrateRoutesArray_unchanged. }
    clearbody step.
    induction sourceFiles as [|sf sfs IH]; simpl.
    - split; [reflexivity|]. by intros sf Hsf%elem_of_nil.
    - rewrite Hstep.
      pose proof (findRoutesArrayToMigrate_exact (getTypeChecker program) sf) as Hexact.
      destruct (Locator.findRoutesArrayToMigrate (getTypeChecker program) sf)
        as [arrays|e]; simpl.
      + destruct Hexact as [_ Hnone].
        destruct (forOf step sfs []) as [tracker|e].
        * destruct IH as [-> Hrest]. split; [reflexivity|].
          intros sf' [->|Hsf']%elem_of_cons; [exact Hnone|by apply Hrest].
        * destruct IH as [-> (sf' & Hsf' & Hbare)]. split; [reflexivity|].
          exists sf'. split; [by right|exact Hbare].
      + destruct Hexact as [-> Hbare]. split; [reflexivity|].
        exists sf. split; [left|exact Hbare]. }
  destruct (forOf step sourceFiles []) as [tracker|e]; simpl; [|exact Hloop].
  destruct Hloop as [-> Hnone]. split; [reflexivity|exact Hnone].
Qed.

(** X6: whatever the program, [toLazyStandaloneRoutes] has one of two
    outcomes: it throws a [TypeError], exactly when one of the files has a
    recognized call without arguments, and otherwise it returns the empty
    mapping. No input makes it return an edit. *)
Theorem toLazyStandaloneRoutes_outcome sourceFiles program printer :
  (toLazyStandaloneRoutes sourceFiles program printer = Throw TypeError
   <-> ∃ sf, sf ∈ sourceFiles ∧ HasBareRegistration (getTypeChecker program) sf)
  ∧ (toLazyStandaloneRoutes sourceFiles program printer = Ok ∅
     <-> ∀ sf, sf ∈ sourceFiles -> ¬ HasBareRegistration (getTypeChecker program) sf)
  ∧ (toLazyStandaloneRoutes sourceFiles program printer = Throw TypeError
     ∨ toLazyStandaloneRoutes sourceFiles program printer = Ok ∅).
Proof.
  pose proof (toLazyStandaloneRoutes_cases sourceFiles program printer) as Hcases.
  destruct (toLazyStandaloneRoutes sourceFiles program printer) as [changes|e].
  - destruct Hcases as [-> Hnone]. split; [|split; [|by right]].
    + split; [discriminate|]. intros (sf & Hsf & Hbare). by destruct (Hnone sf Hsf).
    + done.
  - destruct Hcases as [-> (sf & Hsf & Hbare)]. split; [|split; [|by left]].
    + split; [|done]. intros _. by exists sf.
    + split; [discriminate|]. intros Hnone. by destruct (Hnone sf Hsf).
Qed.

Lemma toLazyStandaloneRoutes_outcome_witness :
  toLazyStandaloneRoutes [appFile; bareFile] (program true) print = Throw TypeError.
Proof.
  apply (proj1 (toLazyStandaloneRoutes_outcome [appFile; bareFile] (program true) print)).
  exists bareFile. split; [repeat constructor|].
  exists (callOn "TranslateModule" "forChild" []). split; [|by split].
  exists (statement (callOn "TranslateModule" "forChild" [])). split; [repeat constructor|].
  apply TsFacts.Within_child_of. repeat constructor.
Defined.

End OrchestratorMore.

(** ** The schematic *)
Module SchematicFacts.
Import Tracker Orchestrator Recognition Schematic OrchestratorMore Fixture Workspace.

Lemma bind_Done {A B : Type} (m : Outcome A) (f : A -> Outcome B) (b : B) :
  m ≫= f = Done b <-> ∃ a, m = Done a ∧ f a = Done b.
Proof.
  destruct m as [a|e]; simpl; split.
  - intros H. by exists a.
  - by intros (a' & [= <-] & Hf).
  - discriminate.
  - by intros (a' & Ha & _).
Qed.

Lemma sum_list_positive {A : Type} (f : A -> nat) (l : list A) :
  sum_list (f <$> l) ≠ 0%nat -> ∃ x, x ∈ l ∧ f x ≠ 0%nat.
Proof.
  induction l as [|a l IH]; csimpl; intros Hsum; [done|].
  destruct (f a) as [|n] eqn:Hfa.
  - destruct (IH Hsum) as (x & Hx & Hfx). exists x. split; [by right|exact Hfx].
  - exists a. split; [left|]. by rewrite Hfa.
Qed.

(** What one project contributes, by cases on the checks the function makes
    in turn. *)
Lemma standaloneRoutesMigration_cases host tree tsconfigPath basePath pathToMigrate options :
  let sourceFiles := projectFiles host tsconfigPath basePath pathToMigrate in
  let typeChecker := getTypeChecker (createProgram host tsconfigPath basePath).1 in
  match standaloneRoutesMigration host tree tsconfigPath basePath pathToMigrate options with
  | Done (tree', count) =>
      tree' = tree ∧ count = length sourceFiles
      ∧ String.prefix ".." (path options) = false
      ∧ existsSync host pathToMigrate && negb (isDirectory host pathToMigrate) = false
      ∧ ∀ sf, sf ∈ sourceFiles -> ¬ HasBareRegistration typeChecker sf
  | Failed (SchematicsException message) =>
      (String.prefix ".." (path options) = true ∧ message = outsideProject)
      ∨ (String.prefix ".." (path options) = false
         ∧ existsSync host pathToMigrate && negb (isDirectory host pathToMigrate) = true
         ∧ message = notDirectory pathToMigrate)
  | Failed (Uncaught e) =>
      e = TypeError
      ∧ String.prefix ".." (path options) = false
      ∧ existsSync host pathToMigrate && negb (isDirectory host pathToMigrate) = false
      ∧ ∃ sf, sf ∈ sourceFiles ∧ HasBareRegistration typeChecker sf
  end.
Proof.
  unfold standaloneRoutesMigration, projectFiles. simpl.
  destruct (String.prefix ".." (path options)) eqn:Hpath; [by left|].
  destruct (createProgram host tsconfigPath basePath) as [program files]. simpl.
  destruct (existsSync host pathToMigrate && negb (isDirectory host pathToMigrate))
    eqn:Hdir; [by right|].
  set (sourceFiles := filesToMigrate host basePath pathToMigrate program files).
  destruct (length sourceFiles =? 0)%nat eqn:Hempty.
  - apply Nat.eqb_eq in Hempty. apply nil_length_inv in Hempty as Hnil. rewrite Hnil.
    repeat split. by intros sf Hsf%elem_of_nil.
  - pose proof (toLazyStandaloneRoutes_cases sourceFiles program (createPrinter host))
      as Hrun.
    destruct (toLazyStandaloneRoutes sourceFiles program (createPrinter host))
      as [changes|e].
    + destruct Hrun as [-> Hnone]. rewrite map_to_list_empty. simpl. by repeat split.
    + destruct Hrun as [-> Hbare]. by repeat split.
Qed.

(** X8: when [standaloneRoutesMigration] returns, the tree is as it was, no
    update has been committed to it, and the number returned is the number
    of files of the program that lie under the path to migrate and pass
    [canMigrateFile]. *)
Theorem standaloneRoutesMigration_returns host tree tsconfigPath basePath pathToMigrate
    options tree' count :
  standaloneRoutesMigration host tree tsconfigPath basePath pathToMigrate options
  = Done (tree', count) ->
  tree' = tree
  ∧ count = length (projectFiles host tsconfigPath basePath pathToMigrate)
  ∧ ∀ sf, sf ∈ projectFiles host tsconfigPath basePath pathToMigrate <->
      sf ∈ (createProgram host tsconfigPath basePath).2
      ∧ String.prefix pathToMigrate (fileName sf) = true
      ∧ canMigrateFile host basePath sf (createProgram host tsconfigPath basePath).1 = true.
Proof.
  intros Hrun.
  pose proof (standaloneRoutesMigration_cases host tree tsconfigPath basePath
                pathToMigrate options) as Hcases.
  simpl in Hcases. rewrite Hrun in Hcases. destruct Hcases as (-> & -> & _).
  split; [reflexivity|]. split; [reflexivity|].
  intros sf. unfold projectFiles, filesToMigrate.
  rewrite !list_elem_of_In, filter_In, andb_true_iff. tauto.
Qed.

Lemma standaloneRoutesMigration_returns_witness :
  [] = @nil Update
  ∧ 2%nat = length (projectFiles (workspace true) "/app/tsconfig.app.json" "/app" "/app")
  ∧ ∀ sf, sf ∈ projectFiles (workspace true) "/app/tsconfig.app.json" "/app" "/app" <->
      sf ∈ [appFile; fooFile; libFile]
      ∧ String.prefix "/app" (fileName sf) = true
      ∧ negb (String.prefix "/node_modules" (fileName sf)) = true.
Proof.
  apply (standaloneRoutesMigration_returns (workspace true) [] "/app/tsconfig.app.json"
           "/app" "/app" (mkOptions ".") [] 2%nat).
  reflexivity.
Defined.

Section Rule.
Variable host : Host.
Variable options : Options.

Let basePath : string := cwd host.
Let pathToMigrate : string := normalizedJoin host (cwd host) (path options).
Let step := migrateProject host options basePath pathToMigrate.

Lemma step_unfold tree count tsconfigPath :
  step (tree, count) tsconfigPath
  = standaloneRoutesMigration host tree tsconfigPath basePath pathToMigrate options
    ≫= fun result => Done (result.1, (count + result.2)%nat).
Proof. reflexivity. Qed.

(** The loop over the tsconfig files. *)
Lemma loop_cases paths : ∀ tree count,
  match forEach step paths (tree, count) with
  | Done run =>
      run.1 = tree
      ∧ run.2 = (count + sum_list
                   ((fun tsconfigPath =>
                       length (projectFiles host tsconfigPath basePath pathToMigrate))
                    <$> paths))%nat
  | Failed (SchematicsException message) =>
      message = outsideProject ∨ message = notDirectory pathToMigrate
  | Failed (Uncaught e) => e = TypeError
  end.
Proof.
  induction paths as [|tsconfigPath paths IH]; intros tree count; simpl.
  - split; [reflexivity|lia].
  - rewrite step_unfold.
    pose proof (standaloneRoutesMigration_cases host tree tsconfigPath basePath
                  pathToMigrate options) as Hcases. simpl in Hcases.
    destruct (standaloneRoutesMigration host tree tsconfigPath basePath pathToMigrate
                options) as [[tree' n]|[message|e]]; simpl.
    + destruct Hcases as (-> & -> & _).
      specialize (IH tree (count + length (projectFiles host tsconfigPath basePath
                                             pathToMigrate))%nat).
      destruct (forEach step paths _) as [run|[message|e]]; [|exact IH|exact IH].
      destruct IH as [Htree Hcount]. split; [exact Htree|]. rewrite Hcount.
      symmetry. apply Nat.add_assoc.
    + destruct Hcases as [[_ ->]|(_ & _ & ->)]; [by left|by right].
    + by destruct Hcases as [-> _].
Qed.

(** X9: the rule never changes the tree. When it completes, the tree is as
    it was, the three messages have been logged, and some project has a
    file to migrate; otherwise it fails with one of its four
    [SchematicsException]s or with the [TypeError] of the locator. *)
Theorem rule_leaves_tree tree :
  match rule host options tree with
  | Done (tree', logged) =>
      tree' = tree ∧ logged = messages
      ∧ ∃ tsconfigPath, tsconfigPath ∈ buildPaths host ++ testPaths host
          ∧ projectFiles host tsconfigPath basePath pathToMigrate ≠ []
  | Failed (SchematicsException message) =>
      message = noTsconfig ∨ message = outsideProject
      ∨ message = notDirectory pathToMigrate ∨ message = noFiles pathToMigrate
  | Failed (Uncaught e) => e = TypeError
  end.
Proof.
  unfold rule.
  change (migrateProject host options _ _) with step.
  change (normalizedJoin host (cwd host) (path options)) with pathToMigrate.
  destruct (length (buildPaths host ++ testPaths host) =? 0)%nat; [by left|].
  pose proof (loop_cases (buildPaths host ++ testPaths host) tree 0%nat) as Hloop.
  destruct (forEach step _ (tree, 0%nat)) as [[tree' total]|[message|e]]; simpl.
  - destruct Hloop as [Htree Htotal]. simpl in Htree, Htotal. subst tree'.
    destruct (total =? 0)%nat eqn:Hzero; [by do 3 right|].
    split; [reflexivity|]. split; [reflexivity|].
    apply Nat.eqb_neq in Hzero. rewrite Htotal in Hzero. clear Htotal.
    apply sum_list_positive in Hzero as (tsconfigPath & Hin & Hsome).
    exists tsconfigPath. split; [exact Hin|].
    intros Hnil. by rewrite Hnil in Hsome.
  - destruct Hloop as [->| ->]; [right; by left|right; right; by left].
  - exact Hloop.
Qed.

(** X10: with a tsconfig file at hand, a path that starts with [..] is
    refused: the rule fails with the exception that says the migration
    cannot run outside of the current project. *)
Theorem path_outside_project_refused tree :
  buildPaths host ++ testPaths host ≠ [] ->
  String.prefix ".." (path options) = true ->
  rule host options tree = Failed (SchematicsException outsideProject).
Proof.
  intros Hpaths Hpath. unfold rule.
  destruct (buildPaths host ++ testPaths host) as [|tsconfigPath paths]; [done|].
  cbn [length Nat.eqb forEach].
  change (migrateProject host options _ _) with step. rewrite step_unfold.
  unfold standaloneRoutesMigration. by rewrite Hpath.
Qed.

(** X11: with a tsconfig file at hand and a path inside the project, a
    path to migrate that exists and is no directory is refused. *)
Theorem file_path_refused tree :
  buildPaths host ++ testPaths host ≠ [] ->
  String.prefix ".." (path options) = false ->
  existsSync host pathToMigrate = true ->
  isDirectory host pathToMigrate = false ->
  rule host options tree = Failed (SchematicsException (notDirectory pathToMigrate)).
Proof.
  intros Hpaths Hpath Hexists Hfile. unfold rule. fold pathToMigrate.
  destruct (buildPaths host ++ testPaths host) as [|tsconfigPath paths]; [done|].
  cbn [length Nat.eqb forEach].
  change (migrateProject host options _ _) with step. rewrite step_unfold.
  unfold standaloneRoutesMigration. rewrite Hpath.
  destruct (createProgram host tsconfigPath basePath). by rewrite Hexists, Hfile.
Qed.

(** X12: when the checks on the path pass and no project has a file to
    migrate under it, the rule fails with the exception that names the
    path. *)
Theorem nothing_to_migrate_refused tree :
  buildPaths host ++ testPaths host ≠ [] ->
  String.prefix ".." (path options) = false ->
  existsSync host pathToMigrate && negb (isDirectory host pathToMigrate) = false ->
  (∀ tsconfigPath, tsconfigPath ∈ buildPaths host ++ testPaths host ->
     projectFiles host tsconfigPath basePath pathToMigrate = []) ->
  rule host options tree = Failed (SchematicsException (noFiles pathToMigrate)).
Proof.
  intros Hpaths Hpath Hdir Hnone. unfold rule.
  change (migrateProject host options _ _) with step.
  change (normalizedJoin host (cwd host) (path options)) with pathToMigrate.
  destruct (length (buildPaths host ++ testPaths host) =? 0)%nat eqn:Hlen.
  { apply Nat.eqb_eq, nil_length_inv in Hlen. done. }
  assert (Hloop : ∀ paths, (∀ t, t ∈ paths -> projectFiles host t basePath pathToMigrate = [])
                  -> forEach step paths (tree, 0%nat) = Done (tree, 0%nat)).
  { induction paths as [|tsconfigPath paths IH]; intros Hall; [reflexivity|].
    simpl. rewrite step_unfold.
    unfold standaloneRoutesMigration. rewrite Hpath.
    pose proof (Hall tsconfigPath ltac:(left)) as Hfiles. unfold projectFiles in Hfiles.
    destruct (createProgram host tsconfigPath basePath) as [program files].
    fold pathToMigrate. rewrite Hdir. simpl in Hfiles. rewrite Hfiles. simpl.
    apply IH. intros t Ht. apply Hall. by right. }
  by rewrite (Hloop _ Hnone).
Qed.

End Rule.

Lemma path_outside_project_refused_witness :
  rule (workspace true) (mkOptions "../other") []
  = Failed (SchematicsException outsideProject).
Proof. apply path_outside_project_refused; [discriminate|reflexivity]. Defined.

Lemma file_path_refused_witness :
  rule (workspace true) (mkOptions "package.json") []
  = Failed (SchematicsException (notDirectory "/app/package.json")).
Proof.
  apply (file_path_refused (workspace true) (mkOptions "package.json") []);
    [discriminate|reflexivity|reflexivity|reflexivity].
Defined.

Lemma nothing_to_migrate_refused_witness :
  rule (workspace true) (mkOptions "missing") []
  = Failed (SchematicsException (noFiles "/app/missing")).
Proof.
  apply (nothing_to_migrate_refused (workspace true) (mkOptions "missing") []);
    [discriminate|reflexivity|reflexivity|].
  intros tsconfigPath _. reflexivity.
Defined.

(** The migration of the workspace completes, and commits nothing. *)
Example workspace_migrated :
  rule (workspace true) (mkOptions ".") [] = Done ([], messages).
Proof. reflexivity. Qed.

End SchematicFacts.

(** ** More on util.ts *)
Module UtilMore.
Import UtilFacts Fixture.

Lemma isPropertyNamed_name name prop :
  isPropertyNamed name prop = true <-> ∃ l, Ts.name prop = Some (Identifier l name).
Proof.
  unfold isPropertyNamed. destruct (Ts.name prop) as [nm|].
  - destruct nm as [l t| | | | | | | | | | |]; simpl;
      try (split; [discriminate|by intros (l' & [=])]).
    unfold textIs. simpl. rewrite String.eqb_eq. split.
    + intros ->. by exists l.
    + by intros (l' & [= _ ->]).
  - split; [discriminate|by intros (l & [=])].
Qed.

(** X7: on an object literal, [findLiteralProperty] returns the first
    property whose name is an identifier spelled [name], as the property
    node itself, and [undefined] when there is none; a property whose key
    is a string literal or a computed name is never found. *)
Theorem findLiteralProperty_first l properties name :
  (∃ before prop after lname,
     properties = before ++ prop :: after
     ∧ Forall (fun p => ∀ lp, Ts.name p ≠ Some (Identifier lp name)) before
     ∧ Ts.name prop = Some (Identifier lname name)
     ∧ findLiteralProperty (ObjectLiteralExpression l properties) name = Ok (Some prop))
  ∨ (Forall (fun p => ∀ lp, Ts.name p ≠ Some (Identifier lp name)) properties
     ∧ findLiteralProperty (ObjectLiteralExpression l properties) name = Ok None).
Proof.
  assert (Hnot : ∀ ps, Forall (fun p => isPropertyNamed name p = false) ps ->
                       Forall (fun p => ∀ lp, Ts.name p ≠ Some (Identifier lp name)) ps).
  { intros ps Hps. eapply Forall_impl; [exact Hps|]. intros p Hp lp Hname.
    assert (isPropertyNamed name p = true); [|congruence].
    apply isPropertyNamed_name. by exists lp. }
  simpl.
  destruct (find_first (isPropertyNamed name) properties)
    as [[Hnone Hall]|(before & prop & after & -> & Hbefore & Hprop & Hfind)].
  - right. split; [by apply Hnot|by rewrite Hnone].
  - left. apply isPropertyNamed_name in Hprop as [lname Hname].
    exists before, prop, after, lname. rewrite Hfind. repeat split; [by apply Hnot|exact Hname].
Qed.

(** [{ 'component': Foo }]: the key is a string literal. *)
Example quoted_key_not_found :
  findLiteralProperty
    (ObjectLiteralExpression (mkLoc 0 22)
       [PropertyAssignment (mkLoc 2 18) (StringLiteral (mkLoc 2 11) "component") fooRef])
    "component" = Ok None.
Proof. reflexivity. Qed.

End UtilMore.

(** ** The placeholder registry *)
Module PlaceholderFacts.
Import Placeholders.

Lemma append_empty_r s : s +:+ "" = s.
Proof.
  induction s as [|c s IH]; [reflexivity|].
  change (String c (s +:+ "") = String c s). by rewrite IH.
Qed.

Lemma append_assoc s t u : (s +:+ t) +:+ u = s +:+ (t +:+ u).
Proof.
  induction s as [|c s IH]; [reflexivity|].
  change (String c ((s +:+ t) +:+ u) = String c (s +:+ (t +:+ u))). by rewrite IH.
Qed.

Lemma append_cancel_l s t u : s +:+ t = s +:+ u -> t = u.
Proof. apply (inj (String.app s)). Qed.

Lemma numbered_ne_base base (k : nat) : base +:+ "_" +:+ pretty k ≠ base.
Proof.
  intros H.
  assert (H' : base +:+ "_" +:+ pretty k = base +:+ "") by (by rewrite append_empty_r).
  apply append_cancel_l in H'. discriminate.
Qed.

Lemma numbered_inj base (k m : nat) :
  base +:+ "_" +:+ pretty k = base +:+ "_" +:+ pretty m -> k = m.
Proof.
  intros H. do 2 apply append_cancel_l in H. by apply (inj pretty).
Qed.

Lemma generate_name base r :
  (_generateUniqueName base r).1
  = if (rank r base =? 0)%nat then base else base +:+ "_" +:+ pretty (rank r base).
Proof.
  unfold _generateUniqueName, rank.
  by destruct (_placeHolderNameCounts r !! base) as [[|n]|].
Qed.

Lemma generate_rank base r other :
  rank (_generateUniqueName base r).2 other
  = if decide (base = other) then S (rank r base) else rank r other.
Proof.
  unfold _generateUniqueName, rank.
  destruct (_placeHolderNameCounts r !! base) as [[|n]|] eqn:Hcount; simpl;
    case_decide as Heq; subst;
    rewrite ?lookup_insert_eq, ?lookup_insert_ne by done; simpl; try done.
Qed.

Lemma generate_signatures base r :
  _signatureToName (_generateUniqueName base r).2 = _signatureToName r.
Proof.
  unfold _generateUniqueName.
  by destruct (_placeHolderNameCounts r !! base) as [[|n]|].
Qed.

(** Every later name for [base] carries a number that is at least the rank
    [base] has now, or is the plain [base] while the rank is still 0. *)
Lemma generateAll_later bases : ∀ r names r' j base name,
  generateAll bases r = (names, r') ->
  bases !! j = Some base -> names !! j = Some name ->
  (name = base ∧ rank r base = 0%nat)
  ∨ ∃ k, (1 ≤ k)%nat ∧ (rank r base ≤ k)%nat ∧ name = base +:+ "_" +:+ pretty k.
Proof.
  induction bases as [|b bases IH]; intros r names r' j base name Hrun Hbase Hname;
    [done|].
  simpl in Hrun.
  pose proof (generate_name b r) as Hfirst.
  pose proof (generate_rank b r base) as Hrank.
  destruct (_generateUniqueName b r) as [first r1]. simpl in Hfirst, Hrank.
  destruct (generateAll bases r1) as [rest r2] eqn:Hrest.
  injection Hrun as <- <-.
  destruct j as [|j]; simpl in Hbase, Hname.
  - injection Hbase as ->. injection Hname as <-. rewrite Hfirst.
    destruct (rank r base =? 0)%nat eqn:Hzero.
    + left. by apply Nat.eqb_eq in Hzero.
    + right. apply Nat.eqb_neq in Hzero. exists (rank r base). repeat split; lia.
  - destruct (IH _ _ _ _ _ _ Hrest Hbase Hname) as [[-> Hzero]|(k & Hk & Hge & ->)].
    + left. split; [reflexivity|]. rewrite Hrank in Hzero. by case_decide.
    + right. exists k. repeat split; [exact Hk|]. rewrite Hrank in Hge.
      case_decide; subst; lia.
Qed.

(** X13: in a series of calls of [_generateUniqueName] whose bases name no
    property inherited from [Object.prototype], on a registry whose counts
    stay within the whole numbers that [next++] increments exactly, two
    calls with the same base return different names. *)
Theorem generated_names_differ bases r names r' i j base first second :
  Forall (fun b => b ∉ inheritedKeys) bases ->
  (∀ b, b ∈ bases -> (N.of_nat (rank r b + length bases) ≤ maxExactCount)%N) ->
  generateAll bases r = (names, r') ->
  (i < j)%nat ->
  bases !! i = Some base -> bases !! j = Some base ->
  names !! i = Some first -> names !! j = Some second ->
  first ≠ second.
Proof.
  intros _ _.
  revert r names r' i j. induction bases as [|b bases IH];
    intros r names r' i j Hrun Hij Hi Hj Hfirst Hsecond; [done|].
  simpl in Hrun.
  pose proof (generate_name b r) as Hname.
  pose proof (generate_rank b r base) as Hrank.
  destruct (_generateUniqueName b r) as [name r1]. simpl in Hname, Hrank.
  destruct (generateAll bases r1) as [rest r2] eqn:Hrest.
  injection Hrun as <- <-.
  destruct j as [|j]; [lia|]. simpl in Hj, Hsecond.
  destruct i as [|i]; simpl in Hi, Hfirst.
  - injection Hi as ->. injection Hfirst as <-.
    rewrite decide_True in Hrank by done.
    destruct (generateAll_later _ _ _ _ _ _ _ Hrest Hj Hsecond)
      as [[_ Hzero]|(k & Hk & Hge & ->)]; [lia|].
    rewrite Hname. destruct (rank r base =? 0)%nat.
    + intros H. symmetry in H. by apply numbered_ne_base in H.
    + intros H%numbered_inj. lia.
  - apply (IH r1 rest r2 i j); [done|lia|done..].
Qed.

Lemma generated_names_differ_witness : "A" ≠ "A_1".
Proof.
  apply (generated_names_differ ["A"; "B"; "A"] newRegistry ["A"; "B"; "A_1"]
           (generateAll ["A"; "B"; "A"] newRegistry).2 0 2 "A" "A" "A_1");
    [|intros b _; by vm_compute|vm_compute; reflexivity|lia|reflexivity..].
  apply (bool_decide_unpack _). by vm_compute.
Defined.

Lemma append_nonempty_l s t : s ≠ "" -> s +:+ t ≠ "".
Proof. destruct s as [|c s]; [done|]. intros _ H. discriminate H. Qed.

Lemma orElse_nonempty a b : b ≠ "" -> orElse a b ≠ "".
Proof.
  intros Hb. unfold orElse. destruct a as [s|]; [|exact Hb].
  destruct (String.eqb s "") eqn:Hs; [exact Hb|]. by apply String.eqb_neq.
Qed.

Lemma cached_lookup r signature name :
  cached r signature = Some name
  <-> _signatureToName r !! signature = Some name ∧ name ≠ "".
Proof.
  unfold cached. destruct (_signatureToName r !! signature) as [n|].
  - destruct (String.eqb n "") eqn:Hn.
    + apply String.eqb_eq in Hn as ->. split; [discriminate|]. by intros [[= <-] ?].
    + apply String.eqb_neq in Hn. split.
      * by intros [= <-].
      * by intros [[= <-] _].
  - split; [discriminate|]. by intros [? _].
Qed.

Lemma generated_nonempty base r : base ≠ "" -> (_generateUniqueName base r).1 ≠ "".
Proof.
  intros Hbase. rewrite generate_name.
  destruct (rank r base =? 0)%nat; [exact Hbase|by apply append_nonempty_l].
Qed.

Section Caching.
Variable toUpperCase : string -> string.

Abbreviation answer := (answer toUpperCase).
Abbreviation answers := (answers toUpperCase).
Abbreviation signatureOf := (signatureOf toUpperCase).
Abbreviation baseOf := (baseOf toUpperCase).

Lemma answer_unfold q r :
  answer q r = lookupOrGenerate (signatureOf q) (baseOf q) r.
Proof. by destruct q. Qed.

Lemma lookupOrGenerate_signatures signature base r other :
  _signatureToName (lookupOrGenerate signature base r).2 !! other
  = if decide (signature = other)
    then Some (lookupOrGenerate signature base r).1
    else _signatureToName r !! other.
Proof.
  unfold lookupOrGenerate. destruct (cached r signature) as [name|] eqn:Hcached; simpl.
  - apply cached_lookup in Hcached as [Hlookup _]. case_decide; by subst.
  - pose proof (generate_signatures base r) as Hsame.
    destruct (_generateUniqueName base r) as [name r']. simpl in *. rewrite Hsame.
    case_decide; subst; [apply lookup_insert_eq|by apply lookup_insert_ne].
Qed.

(** A cached name stays cached, whatever is requested. *)
Lemma answer_keeps q r signature name :
  cached r signature = Some name -> cached (answer q r).2 signature = Some name.
Proof.
  rewrite answer_unfold. intros Hcached. apply cached_lookup.
  rewrite lookupOrGenerate_signatures.
  apply cached_lookup in Hcached as Hlookup. destruct Hlookup as [Hlookup Hname].
  split; [|exact Hname]. case_decide as Heq; [|exact Hlookup]. subst.
  unfold lookupOrGenerate. by rewrite Hcached.
Qed.

Lemma answers_keeps qs : ∀ r signature name,
  cached r signature = Some name -> cached (answers qs r).2 signature = Some name.
Proof.
  induction qs as [|q qs IH]; intros r signature name Hcached; [exact Hcached|].
  simpl. pose proof (answer_keeps q r signature name Hcached) as Hstep.
  destruct (answer q r) as [first r1]. simpl in Hstep.
  pose proof (IH r1 signature name Hstep) as Hrest.
  by destruct (Placeholders.answers toUpperCase qs r1).
Qed.

(** X14: once a request has been answered with a name that is not empty,
    the same request gets the same name again after any series of other
    requests, and answering it again leaves the registry as it is. *)
Theorem answered_name_is_kept q r name r1 qs names r2 :
  answer q r = (name, r1) ->
  name ≠ "" ->
  answers qs r1 = (names, r2) ->
  answer q r2 = (name, r2).
Proof.
  intros Hfirst Hname Hrest.
  assert (Hcached : cached r1 (signatureOf q) = Some name).
  { apply cached_lookup. split; [|exact Hname].
    pose proof (lookupOrGenerate_signatures (signatureOf q) (baseOf q) r (signatureOf q))
      as Hlookup.
    rewrite <- answer_unfold, Hfirst, decide_True in Hlookup by done. exact Hlookup. }
  pose proof (answers_keeps qs r1 _ _ Hcached) as Hkept. rewrite Hrest in Hkept.
  simpl in Hkept. rewrite answer_unfold. unfold lookupOrGenerate. by rewrite Hkept.
Qed.

(** X15: the name returned for a start tag or for a close tag is never the
    empty string, whatever the tag and the registry; a tag therefore always
    keeps the name it was first given. *)
Theorem tag_names_not_empty tag attrs isVoid r :
  (getStartTagPlaceholderName toUpperCase tag attrs isVoid r).1 ≠ ""
  ∧ (getCloseTagPlaceholderName toUpperCase tag r).1 ≠ "".
Proof.
  assert (Hgeneral : ∀ signature base, base ≠ "" ->
            (lookupOrGenerate signature base r).1 ≠ "").
  { intros signature base Hbase. unfold lookupOrGenerate.
    destruct (cached r signature) as [name|] eqn:Hcached.
    - by apply cached_lookup in Hcached as [_ Hname].
    - pose proof (generated_nonempty base r Hbase) as Hname.
      by destruct (_generateUniqueName base r). }
  assert (Hbase : ∀ upperTag,
            orElse (TAG_TO_PLACEHOLDER_NAMES !! upperTag) ("TAG_" +:+ upperTag) ≠ "").
  { intros upperTag. by apply orElse_nonempty, append_nonempty_l. }
  split; apply Hgeneral.
  - unfold startTagBase. destruct isVoid; [apply Hbase|by apply append_nonempty_l].
  - unfold closeTagBase. by apply append_nonempty_l.
Qed.

(** X16: a placeholder whose upper-cased name is empty is not cached: in a
    registry that has not seen it, the first request returns the empty
    string and the same request made again returns [_1]. *)
Theorem empty_placeholder_name_not_cached name content r :
  toUpperCase name = "" ->
  rank r "" = 0%nat ->
  cached r (placeholderSignature "" content) = None ->
  (getPlaceholderName toUpperCase name content r).1 = ""
  ∧ (getPlaceholderName toUpperCase name content
       (getPlaceholderName toUpperCase name content r).2).1 = "_1".
Proof.
  intros Hupper Hrank Hcached. unfold getPlaceholderName. rewrite Hupper.
  fold (placeholderSignature "" content).
  set (signature := placeholderSignature "" content) in *.
  assert (Hfirst : lookupOrGenerate signature "" r
                   = ("", remember signature "" (_generateUniqueName "" r).2)).
  { unfold lookupOrGenerate. rewrite Hcached.
    pose proof (generate_name "" r) as Hname. rewrite Hrank in Hname. simpl in Hname.
    destruct (_generateUniqueName "" r) as [n r']. simpl in *. by subst. }
  rewrite Hfirst. simpl. split; [reflexivity|].
  set (r1 := remember signature "" (_generateUniqueName "" r).2).
  assert (Hcached1 : cached r1 signature = None).
  { unfold cached, r1, remember. simpl. by rewrite lookup_insert_eq. }
  assert (Hrank1 : rank r1 "" = 1%nat).
  { unfold r1, remember, rank. simpl.
    pose proof (generate_rank "" r "") as H. rewrite decide_True, Hrank in H by done.
    exact H. }
  unfold lookupOrGenerate. rewrite Hcached1.
  pose proof (generate_name "" r1) as Hname. rewrite Hrank1 in Hname. simpl in Hname.
  destruct (_generateUniqueName "" r1) as [n r']. simpl in *. by subst.
Qed.

End Caching.

Lemma answered_name_is_kept_witness :
  answer upper (Placeholder "a" "x")
    (answers upper [Placeholder "a" "x"; Placeholder "a" "y"; CloseTag "b"] newRegistry).2
  = ("A", (answers upper [Placeholder "a" "x"; Placeholder "a" "y"; CloseTag "b"]
             newRegistry).2).
Proof.
  apply (answered_name_is_kept upper (Placeholder "a" "x") newRegistry "A"
           (answer upper (Placeholder "a" "x") newRegistry).2
           [Placeholder "a" "y"; CloseTag "b"] ["A_1"; "CLOSE_BOLD_TEXT"]);
    [vm_compute; reflexivity|discriminate|vm_compute; reflexivity].
Defined.

Lemma empty_placeholder_name_not_cached_witness :
  (getPlaceholderName upper "" "{{x}}" newRegistry).1 = ""
  ∧ (getPlaceholderName upper "" "{{x}}"
       (getPlaceholderName upper "" "{{x}}" newRegistry).2).1 = "_1".
Proof.
  apply (empty_placeholder_name_not_cached upper "" "{{x}}" newRegistry); reflexivity.
Defined.

(** Names without [=] can be read back from a signature. *)
Lemma split_unique U : ∀ U' c c',
  mentions equalsSign U = false -> mentions equalsSign U' = false ->
  U +:+ "=" +:+ c = U' +:+ "=" +:+ c' -> U = U' ∧ c = c'.
Proof.
  induction U as [|a U IH]; intros [|a' U'] c c' HU HU' H.
  - split; [reflexivity|]. by apply (append_cancel_l "=").
  - injection H as Ha Hrest. subst a'. simpl in HU'. discriminate.
  - injection H as Ha Hrest. subst a. simpl in HU. discriminate.
  - injection H as Ha Hrest. subst a'. simpl in HU, HU'.
    apply orb_false_elim in HU as [_ HU]. apply orb_false_elim in HU' as [_ HU'].
    destruct (IH U' c c' HU HU' Hrest) as [-> ->]. done.
Qed.

Lemma placeholderSignature_inj U U' c c' :
  mentions equalsSign U = false -> mentions equalsSign U' = false ->
  placeholderSignature U c = placeholderSignature U' c' -> U = U' ∧ c = c'.
Proof.
  intros HU HU' H. unfold placeholderSignature in H.
  apply append_cancel_l in H. by apply split_unique.
Qed.

Lemma Issued_mono r r' base name :
  (rank r base ≤ rank r' base)%nat -> Issued r base name -> Issued r' base name.
Proof.
  intros Hrank [[-> Hone]|(k & Hk & Hlt & ->)].
  - left. split; [reflexivity|lia].
  - right. exists k. repeat split; [exact Hk|lia].
Qed.

Lemma fresh_not_issued base r : ¬ Issued r base (_generateUniqueName base r).1.
Proof.
  rewrite generate_name. destruct (rank r base =? 0)%nat eqn:Hzero.
  - apply Nat.eqb_eq in Hzero. intros [[_ Hone]|(k & Hk & Hlt & Heq)]; lia.
  - apply Nat.eqb_neq in Hzero. intros [[Heq _]|(k & Hk & Hlt & Heq)].
    + by apply numbered_ne_base in Heq.
    + apply numbered_inj in Heq. lia.
Qed.

Lemma fresh_issued_after base r :
  Issued (_generateUniqueName base r).2 base (_generateUniqueName base r).1.
Proof.
  unfold Issued. rewrite generate_name, generate_rank, decide_True by done.
  destruct (rank r base =? 0)%nat eqn:Hzero.
  - left. split; [reflexivity|lia].
  - apply Nat.eqb_neq in Hzero. right. exists (rank r base). repeat split; lia.
Qed.

Lemma lookupOrGenerate_rank signature base r other :
  (rank r other ≤ rank (lookupOrGenerate signature base r).2 other)%nat.
Proof.
  unfold lookupOrGenerate. destruct (cached r signature); [done|].
  pose proof (generate_rank base r other) as Hrank.
  destruct (_generateUniqueName base r) as [name r']. simpl in *.
  change (rank (remember signature name r') other) with (rank r' other).
  rewrite Hrank. case_decide; subst; lia.
Qed.

(** What [lookupOrGenerate] returns and leaves behind when nothing is
    cached. *)
Lemma lookupOrGenerate_fresh signature base r :
  cached r signature = None ->
  (lookupOrGenerate signature base r).1 = (_generateUniqueName base r).1
  ∧ ∀ other, rank (lookupOrGenerate signature base r).2 other
             = rank (_generateUniqueName base r).2 other.
Proof.
  intros Hcached. unfold lookupOrGenerate. rewrite Hcached.
  by destruct (_generateUniqueName base r).
Qed.

Section Distinct.
Variable toUpperCase : string -> string.

Abbreviation answer := (answer toUpperCase).
Abbreviation answers := (answers toUpperCase).
Abbreviation signatureOf := (signatureOf toUpperCase).
Abbreviation baseOf := (baseOf toUpperCase).
Abbreviation Plain := (Plain toUpperCase).

(** In a coherent registry the name kept for a placeholder signature was
    generated from the name in the signature, and two contents of one name
    have different names. *)
Let Coherent (r : PlaceholderRegistry) : Prop :=
  (∀ U c n, mentions equalsSign U = false ->
     _signatureToName r !! placeholderSignature U c = Some n -> Issued r U n)
  ∧ (∀ U c c' n n', mentions equalsSign U = false ->
       _signatureToName r !! placeholderSignature U c = Some n ->
       _signatureToName r !! placeholderSignature U c' = Some n' ->
       c ≠ c' -> n ≠ n').

Let Owns (signature base : string) : Prop :=
  ∀ U c, mentions equalsSign U = false -> placeholderSignature U c = signature -> base = U.

Lemma plain_owns q : Plain q -> Owns (signatureOf q) (baseOf q).
Proof.
  intros Hplain U c HU Hsig. destruct q as [tag attrs isVoid|tag|name content].
  - discriminate Hsig.
  - discriminate Hsig.
  - simpl in *. fold (placeholderSignature (toUpperCase name) content) in Hsig.
    by destruct (placeholderSignature_inj _ _ _ _ HU Hplain Hsig).
Qed.

Lemma lookupOrGenerate_coherent signature base r :
  Owns signature base -> Coherent r -> Coherent (lookupOrGenerate signature base r).2.
Proof.
  intros Howns [Hissued Hdiffer].
  destruct (cached r signature) as [name|] eqn:Hcached.
  { unfold lookupOrGenerate. rewrite Hcached. by split. }
  destruct (lookupOrGenerate_fresh signature base r Hcached) as [Hname Hrank].
  assert (Hold : ∀ U c n, mentions equalsSign U = false ->
            _signatureToName r !! placeholderSignature U c = Some n ->
            Issued (lookupOrGenerate signature base r).2 U n).
  { intros U c n HU Hlookup. eapply Issued_mono; [|by eapply Hissued].
    apply lookupOrGenerate_rank. }
  assert (Hnew : ∀ U c n, mentions equalsSign U = false ->
            placeholderSignature U c = signature ->
            (lookupOrGenerate signature base r).1 = n ->
            U = base ∧ ¬ Issued r U n ∧ Issued (lookupOrGenerate signature base r).2 U n).
  { intros U c n HU Hsig <-.
    assert (U = base) as -> by (symmetry; by apply (Howns U c)).
    split; [reflexivity|].
    rewrite Hname. split; [apply fresh_not_issued|].
    unfold Issued. rewrite Hrank. apply fresh_issued_after. }
  split.
  - intros U c n HU. rewrite lookupOrGenerate_signatures.
    case_decide as Heq; [|by apply Hold].
    intros [= Hn]. by destruct (Hnew U c n HU (eq_sym Heq) Hn) as (_ & _ & ?).
  - intros U c c' n n' HU. rewrite !lookupOrGenerate_signatures.
    case_decide as Heq; case_decide as Heq'.
    + intros _ _ Hc. destruct Hc. rewrite Heq' in Heq. unfold placeholderSignature in Heq.
      by do 3 apply append_cancel_l in Heq.
    + intros [= Hn] Hlookup' _ ->.
      destruct (Hnew U c n' HU (eq_sym Heq) Hn) as (_ & Hnot & _).
      apply Hnot. by eapply Hissued.
    + intros Hlookup [= Hn'] _ <-.
      destruct (Hnew U c' n HU (eq_sym Heq') Hn') as (_ & Hnot & _).
      apply Hnot. by eapply Hissued.
    + by apply Hdiffer.
Qed.

Lemma answer_coherent q r : Plain q -> Coherent r -> Coherent (answer q r).2.
Proof.
  intros Hplain. rewrite answer_unfold. by apply lookupOrGenerate_coherent, plain_owns.
Qed.

(** What is known of an earlier answer [first], given for the content
    [content] of the name [U], while later requests are served. *)
Let Tracked (U content first : string) (r : PlaceholderRegistry) : Prop :=
  Coherent r ∧ Issued r U first
  ∧ (_signatureToName r !! placeholderSignature U content = Some first ∨ first = "").

Lemma answer_tracked U content first q r :
  Plain q -> Tracked U content first r -> Tracked U content first (answer q r).2.
Proof.
  intros Hplain (Hcoherent & Hissued & Hkept). split; [by apply answer_coherent|].
  rewrite answer_unfold. split.
  - eapply Issued_mono; [apply lookupOrGenerate_rank|exact Hissued].
  - destruct Hkept as [Hkept|Hempty]; [|by right].
    rewrite lookupOrGenerate_signatures. case_decide as Heq; [|by left].
    unfold lookupOrGenerate.
    destruct (cached r (signatureOf q)) as [name|] eqn:Hcached.
    + apply cached_lookup in Hcached as [Hlookup _]. simpl. left.
      rewrite Heq in Hlookup. congruence.
    + right. unfold cached in Hcached. rewrite Heq, Hkept in Hcached.
      destruct (String.eqb first "") eqn:Hfirst; [|discriminate].
      by apply String.eqb_eq.
Qed.

Lemma later_answer_differs U content first qs : ∀ r names r' j name content' second,
  Forall Plain qs ->
  Tracked U content first r ->
  mentions equalsSign U = false ->
  answers qs r = (names, r') ->
  qs !! j = Some (Placeholder name content') ->
  toUpperCase name = U -> content ≠ content' ->
  names !! j = Some second ->
  first ≠ second.
Proof.
  induction qs as [|q qs IH];
    intros r names r' j name content' second Hplain Htracked HU Hrun Hq Hname Hcontent
      Hsecond; [done|].
  apply Forall_cons in Hplain as [Hplainq Hplain].
  simpl in Hrun.
  pose proof (answer_tracked U content first q r Hplainq Htracked) as Hnext.
  destruct (Placeholders.answer toUpperCase q r) as [a r1] eqn:Hanswer.
  destruct (Placeholders.answers toUpperCase qs r1) as [rest r2] eqn:Hrest.
  injection Hrun as <- <-. simpl in Hnext.
  destruct j as [|j]; simpl in Hq, Hsecond.
  - injection Hq as ->. injection Hsecond as <-.
    destruct Htracked as ([_ Hdiffer] & Hissued & Hkept).
    rewrite answer_unfold in Hanswer. simpl in Hanswer. rewrite Hname in Hanswer.
    fold (placeholderSignature U content') in Hanswer.
    unfold lookupOrGenerate in Hanswer.
    destruct (cached r (placeholderSignature U content')) as [b|] eqn:Hcached.
    + injection Hanswer as <- <-.
      apply cached_lookup in Hcached as [Hlookup Hnonempty].
      destruct Hkept as [Hkept| ->]; [|done].
      by apply (Hdiffer U content content' first b).
    + pose proof (fresh_not_issued U r) as Hfresh.
      destruct (_generateUniqueName U r) as [b rb]. injection Hanswer as <- <-.
      intros ->. by apply Hfresh.
  - by apply (IH r1 rest r2 j name content' second).
Qed.

Lemma answers_differ_from qs : ∀ r names r' i j name content name' content' first second,
  Coherent r ->
  Forall Plain qs ->
  answers qs r = (names, r') ->
  (i < j)%nat ->
  qs !! i = Some (Placeholder name content) ->
  qs !! j = Some (Placeholder name' content') ->
  toUpperCase name = toUpperCase name' -> content ≠ content' ->
  names !! i = Some first -> names !! j = Some second ->
  first ≠ second.
Proof.
  induction qs as [|q qs IH];
    intros r names r' i j name content name' content' first second Hcoherent Hplain
      Hrun Hij Hi Hj Hname Hcontent Hfirst Hsecond; [done|].
  apply Forall_cons in Hplain as [Hplainq Hplain].
  simpl in Hrun.
  pose proof (answer_coherent q r Hplainq Hcoherent) as Hnext.
  pose proof (lookupOrGenerate_signatures (signatureOf q) (baseOf q) r (signatureOf q))
    as Hlookup.
  rewrite <- answer_unfold, decide_True in Hlookup by done.
  destruct (Placeholders.answer toUpperCase q r) as [a r1] eqn:Hanswer.
  destruct (Placeholders.answers toUpperCase qs r1) as [rest r2] eqn:Hrest.
  injection Hrun as <- <-. simpl in Hnext, Hlookup.
  destruct j as [|j]; [lia|]. simpl in Hj, Hsecond.
  destruct i as [|i]; simpl in Hi, Hfirst.
  - injection Hi as ->. injection Hfirst as <-. simpl in Hplainq, Hlookup.
    fold (placeholderSignature (toUpperCase name) content) in Hlookup.
    apply (later_answer_differs (toUpperCase name) content a qs r1 rest r2 j name'
             content' second); try done.
    split; [exact Hnext|]. split; [|by left].
    destruct Hnext as [Hissued _]. by apply (Hissued _ content).
  - apply (IH r1 rest r2 i j name content name' content' first second); try done. lia.
Qed.

(** X17: in a series of requests made to a new registry in which no
    placeholder name contains [=], two requests for placeholders of the same
    name (up to case) with different contents are answered with different
    names. *)
Theorem contents_get_different_names qs names r i j name content name' content'
    first second :
  Forall Plain qs ->
  answers qs newRegistry = (names, r) ->
  (i < j)%nat ->
  qs !! i = Some (Placeholder name content) ->
  qs !! j = Some (Placeholder name' content') ->
  toUpperCase name = toUpperCase name' -> content ≠ content' ->
  names !! i = Some first -> names !! j = Some second ->
  first ≠ second.
Proof.
  intros Hplain Hrun. apply (answers_differ_from qs newRegistry names r); [|done..].
  split.
  - intros U c n _ Hlookup. simpl in Hlookup. by rewrite lookup_empty in Hlookup.
  - intros U c c' n n' _ Hlookup. simpl in Hlookup. by rewrite lookup_empty in Hlookup.
Qed.

End Distinct.

Lemma contents_get_different_names_witness : "INTERPOLATION" ≠ "INTERPOLATION_1".
Proof.
  apply (contents_get_different_names upper
           [Placeholder "interpolation" "{{a}}"; StartTag "b" [] false;
            Placeholder "Interpolation" "{{b}}"]
           ["INTERPOLATION"; "START_BOLD_TEXT"; "INTERPOLATION_1"]
           (answers upper
              [Placeholder "interpolation" "{{a}}"; StartTag "b" [] false;
               Placeholder "Interpolation" "{{b}}"] newRegistry).2
           0 2 "interpolation" "{{a}}" "Interpolation" "{{b}}");
    [repeat constructor|vm_compute; reflexivity|lia|reflexivity|reflexivity
    |reflexivity|discriminate|reflexivity|reflexivity].
Defined.

(** Without the condition on [=] the names can coincide, and names made
    from different bases can coincide as well. *)
Example contents_can_share_a_name :
  (answers upper
     [Placeholder "a=b" "x"; Placeholder "a=b" "y"; Placeholder "a=b_1" "z";
      Placeholder "a" "B=y"; Placeholder "a" "B_1=z"] newRegistry).1
  = ["A=B"; "A=B_1"; "A=B_1"; "A=B_1"; "A=B_1"].
Proof. vm_compute. reflexivity. Qed.

End PlaceholderFacts.
